(** * Homie: identity and access control

    A shallow embedding of the identity/access-control core of the Homie
    Flask application:

    - [config.py]          : [load_access_control]            (module [Config])
    - [app.py]             : the [/login] route               (module [App])
    - [authentication.py]  : [feature_required]               (module [Authentication])
    - [models.py]          : [Database.init_db], [Database._run_migrations],
                             [UserModel.get_or_create_supabase_user]
                                                              (modules [Schema], [Models])

    Each module of definitions is followed, in the second half of the file,
    by a module of facts ([AppFacts], [AuthenticationFacts], [SchemaFacts],
    [ModelsFacts]).

    Python strings are modelled as [string]; [lower], [strip] and [split] are
    the ASCII fragments of [str.lower], [str.strip] and [str.split].  The
    functions of the [database] module that the sources import
    ([get_user_feature_visibility], [get_all_user_features], the [UserModel]
    used by the route) are arguments of the definitions that call them. *)

From Stdlib Require Import List String Ascii Bool ZArith Arith Lia DecimalString.
Import ListNotations.
Open Scope string_scope.
Open Scope list_scope.

(** ** Exceptions, results and log records *)

Module Py.

(** The exception classes that occur; the string is [str(e)]. *)
Inductive Exn :=
| AttributeError (msg : string)
| IntegrityError (msg : string)      (* sqlite3.IntegrityError *)
| OperationalError (msg : string)    (* sqlite3.OperationalError *)
| OtherException (cls msg : string).

Definition str_exn (e : Exn) : string :=
  match e with
  | AttributeError m | IntegrityError m | OperationalError m => m
  | OtherException _ m => m
  end.

(** How a call ends: it returns a value or an exception propagates. *)
Inductive Outcome (A : Type) :=
| Return (a : A)
| Raise (e : Exn).
Arguments Return {A} a.
Arguments Raise {A} e.

Inductive Level := DEBUG | INFO | WARNING | ERROR.

(** One call of [logger.debug/info/warning/error]. *)
Record LogRecord := mkLog { level : Level; message : string }.

Definition Log := list LogRecord.

(** [str(n)] for an integer. *)
Definition str_Z (z : Z) : string := NilZero.string_of_int (Z.to_int z).

End Py.

(** ** Python string helpers *)

Module PyStr.

Definition lower_ascii (c : ascii) : ascii :=
  let n := nat_of_ascii c in
  if (65 <=? n)%nat && (n <=? 90)%nat then ascii_of_nat (n + 32) else c.

(** [s.lower()] *)
Fixpoint lower (s : string) : string :=
  match s with
  | EmptyString => EmptyString
  | String c r => String (lower_ascii c) (lower r)
  end.

(** The ASCII characters for which [str.isspace] holds:
    TAB, LF, VT, FF, CR, FS, GS, RS, US and the space. *)
Definition is_space (c : ascii) : bool :=
  let n := nat_of_ascii c in
  ((9 <=? n)%nat && (n <=? 13)%nat) || ((28 <=? n)%nat && (n <=? 32)%nat).

Fixpoint lstrip (s : string) : string :=
  match s with
  | EmptyString => EmptyString
  | String c r => if is_space c then lstrip r else s
  end.

Fixpoint rstrip (s : string) : string :=
  match s with
  | EmptyString => EmptyString
  | String c r =>
      match rstrip r with
      | EmptyString => if is_space c then EmptyString else String c EmptyString
      | r' => String c r'
      end
  end.

(** [s.strip()] *)
Definition strip (s : string) : string := rstrip (lstrip s).

(** [split_go sep acc s]: [acc] is the field being read, reversed. *)
Fixpoint split_go (sep : ascii) (acc : string) (s : string) : list string :=
  match s with
  | EmptyString => [acc]
  | String c r =>
      if Ascii.eqb c sep then acc :: split_go sep EmptyString r
      else split_go sep (acc ++ String c EmptyString)%string r
  end.

(** [s.split(sep)] for a one-character separator: never the empty list. *)
Definition split (sep : ascii) (s : string) : list string :=
  split_go sep EmptyString s.

(** [x in xs] on a list of strings. *)
Definition py_in (x : string) (xs : list string) : bool :=
  existsb (String.eqb x) xs.

(** [needle in s] on strings. *)
Fixpoint contains (needle s : string) : bool :=
  if String.prefix needle s then true
  else match s with
       | EmptyString => false
       | String _ r => contains needle r
       end.

(** Truthiness of a string and of a list. *)
Definition truthy_str (s : string) : bool :=
  match s with EmptyString => false | _ => true end.

Definition truthy_list {A} (l : list A) : bool :=
  match l with [] => false | _ => true end.

(** A dict with string keys, and [d.get(k)]. *)
Fixpoint dict_get {V} (k : string) (d : list (string * V)) : option V :=
  match d with
  | [] => None
  | (k', v) :: rest => if String.eqb k' k then Some v else dict_get k rest
  end.

(** [d.get(k, default)] *)
Definition dict_get_default {V} (k : string) (d : list (string * V)) (default : V) : V :=
  match dict_get k d with Some v => v | None => default end.

End PyStr.

(** ** [config.py] *)

Module Config.
Import PyStr.

(** The process environment, as [os.getenv] sees it. *)
Definition Env := list (string * string).

Fixpoint getenv (env : Env) (key default : string) : string :=
  match env with
  | [] => default
  | (k, v) :: rest => if String.eqb k key then v else getenv rest key default
  end.

(** The dict built by [load_access_control]: it always holds both keys. *)
Record AccessControl := mkAccessControl {
  allowed_emails : list string;
  admin_emails : list string
}.

(** [[email.strip().lower() for email in s.split(",")]] *)
Definition parse_emails (s : string) : list string :=
  map (fun email => lower (strip email)) (split "," s).

Definition load_access_control (env : Env) : AccessControl :=
  let admin_emails_str := getenv env "ADMIN_EMAILS" "" in
  let admins := if truthy_str admin_emails_str
                then parse_emails admin_emails_str else [] in
  let allowed_emails_str := getenv env "ALLOWED_EMAILS" "" in
  let allowed := if truthy_str allowed_emails_str
                 then parse_emails allowed_emails_str else [] in
  mkAccessControl allowed admins.

(** Every entry of a loaded policy is already lower-cased. *)
Definition normalized (l : list string) : Prop :=
  Forall (fun e => lower e = e) l.

(** [os.getenv(key)]: [None] when the variable is not set. *)
Fixpoint getenv_opt (env : Env) (key : string) : option string :=
  match env with
  | [] => None
  | (k, v) :: rest => if String.eqb k key then Some v else getenv_opt rest key
  end.

(** The dict [{"url": url, "key": key}]. *)
Record SupabaseConfig := mkSupabaseConfig {
  cfg_url : string;
  cfg_key : string
}.

(** [not x] for a value that is [None] or a string. *)
Definition falsy_opt (o : option string) : bool :=
  match o with
  | None => true
  | Some s => negb (truthy_str s)
  end.

(** [get_supabase_config], lines 11-20, with what it logs. *)
Definition get_supabase_config (env : Env)
  : option SupabaseConfig * Py.Log :=
  let url := getenv_opt env "SUPABASE_URL" in
  let key := getenv_opt env "SUPABASE_KEY" in
  if falsy_opt url || falsy_opt key then
    (None,
     [Py.mkLog Py.ERROR
        "Missing SUPABASE_URL or SUPABASE_KEY environment variables"])
  else
    match url, key with
    | Some u, Some k => (Some (mkSupabaseConfig u k), [])
    | _, _ => (None, [])
    end.

End Config.

(** ** What Flask hands to a view: the session and the response *)

Module Flask.

(** The dict stored under [session["user"]]. *)
Record SessionUser := mkSessionUser {
  s_id : Z;
  s_supabase_id : option string;
  s_username : option string;
  s_email : string;
  s_full_name : option string;
  s_is_admin : bool;
  s_access_token : string
}.

(** [None] when ["user" not in session]. *)
Definition Session := option SessionUser.

(** [redirect(url_for(endpoint))], [render_template(name)], or a JSON body
    with a status code. *)
Inductive Response :=
| Redirect (endpoint : string)
| RenderTemplate (name : string)
| Json (body : string) (status : Z).

End Flask.

(** ** The user object of the identity provider *)

Module Supabase.

(** [user.id], [user.email] and [user.user_metadata] (a dict or [None]). *)
Record SupabaseUser := mkSupabaseUser {
  su_id : string;
  su_email : string;
  su_user_metadata : option (list (string * string))
}.

End Supabase.

(** ** [app.py]: the [/login] route *)

Module App.
Import Py PyStr Config Flask Supabase.

Inductive Method := GET | POST.

(** The request as the route reads it; the login form sends both fields. *)
Record Request := mkRequest {
  method : Method;
  form_email : string;       (* request.form.get("email") *)
  form_password : string     (* request.form.get("password") *)
}.

(** The result of [sign_in_with_password]: [res.user] and
    [res.session.access_token]. *)
Record AuthResponse := mkAuthResponse {
  res_user : option SupabaseUser;
  res_access_token : string
}.

(** The Supabase client, an external service. *)
Record Provider := mkProvider {
  sign_in_with_password : string -> string -> Outcome AuthResponse;
  sign_out : Outcome unit
}.

(** The record [UserModel().get_or_create_supabase_user] gives back to the
    route. *)
Record LocalUser := mkLocalUser {
  lu_id : Z;
  lu_supabase_id : option string;
  lu_username : option string;
  lu_email : string;
  lu_full_name : option string;
  lu_is_admin : bool
}.

(** What the route does besides answering. *)
Inductive Event :=
| SignIn (email password : string)
| SignOut
| Reconcile (u : SupabaseUser)
| Flash (msg category : string)
| Logged (r : LogRecord).

Definition str_opt (o : option string) : string :=
  match o with Some s => s | None => "None" end.

(** Step 2 of the route, lines 173-186: [true] when the e-mail passes.
<<
    if allowed_emails and email.lower() not in [e.lower() for e in allowed_emails]:
        if email.lower() not in [e.lower() for e in admin_emails]:
            ... return render_template("login.html")
>> *)
Definition login_gate (access_control : AccessControl) (email : string) : bool :=
  let allowed := allowed_emails access_control in
  let admins := admin_emails access_control in
  if truthy_list allowed && negb (py_in (lower email) (map lower allowed)) then
    if negb (py_in (lower email) (map lower admins)) then false else true
  else true.

(** The [except Exception as e] handler of the route, followed by the final
    [return render_template("login.html")]. *)
Definition login_failed (session : Session) (done : list Event) (e : Exn)
  : Response * Session * list Event :=
  (RenderTemplate "login.html", session,
   done ++ [Logged (mkLog ERROR ("Login failed: " ++ str_exn e)%string);
            Flash "Invalid email or password" "error"]).

(** The dict the [except] branch of [inject_user_features] falls back to. *)
Definition all_features_visible : list (string * bool) :=
  [ ("shopping", true); ("chores", true); ("tracker", true);
    ("bills", true); ("budget", true) ].

(** [inject_user_features], lines 98-117: the value of [user_features]
    handed to the templates and what is logged.  [get_all_user_features]
    is imported from the [database] module; it is an argument here. *)
Definition inject_user_features
    (get_all_user_features : Z -> Outcome (list (string * bool)))
    (session : Session) : list (string * bool) * Log :=
  match session with
  | Some user =>
      match get_all_user_features (s_id user) with
      | Return user_features => (user_features, [])
      | Raise e =>
          (all_features_visible,
           [mkLog ERROR ("Error loading user features: " ++ str_exn e)%string])
      end
  | None => ([], [])
  end.

Section Login.

(** Set once in [create_app]: the client ([None] when it could not be
    built), the policy, and the reconciliation of the [database] module. *)
Variable supabase : option Provider.
Variable access_control : AccessControl.
Variable get_or_create_supabase_user :
  SupabaseUser -> AccessControl -> Outcome LocalUser.

Definition login (session : Session) (request : Request)
  : Response * Session * list Event :=
  match session with
  | Some _ => (Redirect "dashboard", session, [])
  | None =>
    match method request with
    | GET => (RenderTemplate "login.html", session, [])
    | POST =>
      match supabase with
      | None =>
          (RenderTemplate "login.html", session,
           [Flash "Authentication service unavailable" "error"])
      | Some sb =>
        let email := form_email request in
        let password := form_password request in
        let ev1 := [SignIn email password] in
        match sign_in_with_password sb email password with
        | Raise e => login_failed session ev1 e
        | Return res =>
          match res_user res with
          | None => (RenderTemplate "login.html", session, ev1)
          | Some user =>
            if login_gate access_control email then
              let ev2 := ev1 ++ [Reconcile user] in
              match get_or_create_supabase_user user access_control with
              | Raise e => login_failed session ev2 e
              | Return local_user =>
                  (Redirect "dashboard",
                   Some (mkSessionUser (lu_id local_user)
                           (lu_supabase_id local_user)
                           (lu_username local_user)
                           (lu_email local_user)
                           (lu_full_name local_user)
                           (lu_is_admin local_user)
                           (res_access_token res)),
                   ev2 ++ [Flash ("Welcome back, "
                                  ++ str_opt (lu_full_name local_user) ++ "!")%string
                                 "success"])
              end
            else
              let ev2 := ev1 ++ [Logged (mkLog WARNING
                           ("Login denied for " ++ email
                            ++ ": Not in allowed list")%string);
                         SignOut] in
              match sign_out sb with
              | Raise e => login_failed session ev2 e
              | Return _ =>
                  (RenderTemplate "login.html", session,
                   ev2 ++ [Flash "Access denied. You are not authorized."
                                 "error"])
              end
          end
        end
      end
    end
  end.

End Login.

(** The start of [create_app], lines 71-84: the client the routes close
    over, and what is logged.  [create_client] is the constructor of the
    [supabase] package. *)
Definition init_supabase
    (create_client : string -> string -> Outcome Provider) (env : Env)
  : option Provider * Log :=
  let '(supabase_config, log) := get_supabase_config env in
  match supabase_config with
  | Some cfg =>
      match create_client (cfg_url cfg) (cfg_key cfg) with
      | Return client =>
          (Some client, log ++ [mkLog INFO "Supabase client initialized"])
      | Raise e =>
          (None, log ++ [mkLog ERROR
             ("Failed to initialize Supabase client: " ++ str_exn e)%string])
      end
  | None =>
      (None, log ++ [mkLog WARNING
         "Supabase configuration missing. Authentication will fail."])
  end.

(** The route [/], lines 230-234. *)
Definition index (session : Session) : Response :=
  match session with
  | Some _ => Redirect "dashboard"
  | None => Redirect "login"
  end.

(** *** The template filter [title_case], lines 120-124 *)

Definition upper_ascii (c : ascii) : ascii :=
  let n := nat_of_ascii c in
  if (97 <=? n)%nat && (n <=? 122)%nat then ascii_of_nat (n - 32) else c.

(** [word.capitalize()] on ASCII text: the first character in upper case,
    the others in lower case. *)
Definition capitalize (word : string) : string :=
  match word with
  | EmptyString => EmptyString
  | String c r => String (upper_ascii c) (lower r)
  end.

(** [s.split()]: the runs of characters that are not white space; [cur] is
    the run being read. *)
Fixpoint split_ws_go (cur : string) (s : string) : list string :=
  match s with
  | EmptyString => if truthy_str cur then [cur] else []
  | String c r =>
      if is_space c
      then (if truthy_str cur then cur :: split_ws_go EmptyString r
            else split_ws_go EmptyString r)
      else split_ws_go (cur ++ String c EmptyString)%string r
  end.

Definition split_ws (s : string) : list string := split_ws_go EmptyString s.

(** [sep.join(words)] *)
Fixpoint join (sep : string) (words : list string) : string :=
  match words with
  | [] => EmptyString
  | [w] => w
  | w :: rest => (w ++ sep ++ join sep rest)%string
  end.

Definition title_case_filter (text : string) : string :=
  if negb (truthy_str text) then text
  else join " " (map capitalize (split_ws text)).

End App.

(** ** [authentication.py]: the feature guard *)

Module Authentication.
Import Py PyStr Flask.

(** A view or a guard: it may log, and it returns or raises. *)
Definition M (A : Type) : Type := Log -> Outcome A * Log.

Definition ret {A} (a : A) : M A := fun log => (Return a, log).

Definition bind {A B} (c : M A) (k : A -> M B) : M B :=
  fun log =>
    match c log with
    | (Return a, log') => k a log'
    | (Raise e, log') => (Raise e, log')
    end.

Definition logger (l : Level) (msg : string) : M unit :=
  fun log => (Return tt, log ++ [mkLog l msg]).

Notation "x <- c ;; k" := (bind c (fun x => k))
  (at level 61, c at next level, right associativity).
Notation "c ;;; k" := (bind c (fun _ => k))
  (at level 61, right associativity).

(** [feature_required(feature_name)(f)], lines 62-87.  The lookup is
    imported from the [database] module inside the wrapper; it is an
    argument here. *)
Definition feature_required
    (get_user_feature_visibility : Z -> string -> M bool)
    (feature_name : string) (f : M Response) (session : Session)
  : M Response :=
  match session with
  | None => ret (Redirect "login")
  | Some user =>
      let user_id := s_id user in
      visible <- get_user_feature_visibility user_id feature_name ;;
      if negb visible then
        logger WARNING ("User " ++ str_Z user_id
                        ++ " attempted to access disabled feature: "
                        ++ feature_name)%string ;;;
        ret (Redirect "unauthorized")
      else f
  end.

(** [login_required(f)], lines 21-30. *)
Definition login_required (f : M Response) (session : Session) : M Response :=
  match session with
  | None => ret (Redirect "login")
  | Some _ => f
  end.

(** [admin_required(f)], lines 33-47. *)
Definition admin_required (f : M Response) (session : Session) : M Response :=
  match session with
  | None => ret (Redirect "login")
  | Some user =>
      if negb (s_is_admin user) then ret (Redirect "unauthorized") else f
  end.

(** [jsonify({"error": msg})]: the compact JSON text and its newline. *)
Definition jsonify_error (msg : string) : string :=
  let dq := String (ascii_of_nat 34) EmptyString in
  let nl := String (ascii_of_nat 10) EmptyString in
  ("{" ++ dq ++ "error" ++ dq ++ ":" ++ dq ++ msg ++ dq ++ "}" ++ nl)%string.

(** [api_auth_required(f)], lines 50-59. *)
Definition api_auth_required (f : M Response) (session : Session) : M Response :=
  match session with
  | None => ret (Json (jsonify_error "Authentication required") 401)
  | Some _ => f
  end.

End Authentication.

(** ** [models.py]: schema initialisation and migrations *)

Module Schema.
Import Py PyStr.

(** A column as declared: its name and the rest of its definition. *)
Record Column := mkColumn { col_name : string; col_decl : string }.

Record Table := mkTable {
  tbl_name : string;
  tbl_columns : list Column;
  tbl_constraints : list string
}.

(** The schema held by the database file, in creation order. *)
Definition Schema := list Table.

(** The two statement forms [init_db] and [_run_migrations] execute. *)
Inductive Ddl :=
| CreateTableIfNotExists (t : Table)
| AlterTableAddColumn (table : string) (c : Column).

(** SQLite compares identifiers without regard to ASCII case. *)
Definition same_ident (a b : string) : bool := String.eqb (lower a) (lower b).

Fixpoint find_table (name : string) (s : Schema) : option Table :=
  match s with
  | [] => None
  | t :: rest => if same_ident (tbl_name t) name then Some t
                 else find_table name rest
  end.

Definition has_column (c : string) (t : Table) : bool :=
  existsb (fun col => same_ident (col_name col) c) (tbl_columns t).

Fixpoint add_column (name : string) (c : Column) (s : Schema) : Schema :=
  match s with
  | [] => []
  | t :: rest =>
      if same_ident (tbl_name t) name
      then mkTable (tbl_name t) (tbl_columns t ++ [c]) (tbl_constraints t) :: rest
      else t :: add_column name c rest
  end.

(** [conn.execute(stmt)] for a schema statement, with SQLite's error
    messages; both errors are raised as [sqlite3.OperationalError]. *)
Definition execute (stmt : Ddl) (s : Schema) : Outcome Schema :=
  match stmt with
  | CreateTableIfNotExists t =>
      match find_table (tbl_name t) s with
      | Some _ => Return s
      | None => Return (s ++ [t])
      end
  | AlterTableAddColumn name c =>
      match find_table name s with
      | None => Raise (OperationalError ("no such table: " ++ name)%string)
      | Some t =>
          if has_column (col_name c) t
          then Raise (OperationalError
                        ("duplicate column name: " ++ col_name c)%string)
          else Return (add_column name c s)
      end
  end.

Definition col (n d : string) : Column := mkColumn n d.

Definition users_table : Table :=
  mkTable "users"
    [ col "id" "INTEGER PRIMARY KEY AUTOINCREMENT";
      col "username" "TEXT";
      col "email" "TEXT UNIQUE NOT NULL";
      col "full_name" "TEXT";
      col "is_admin" "BOOLEAN DEFAULT FALSE";
      col "supabase_id" "TEXT UNIQUE NOT NULL";
      col "last_login" "TIMESTAMP";
      col "created_at" "TIMESTAMP DEFAULT CURRENT_TIMESTAMP";
      col "last_activity" "TIMESTAMP" ]
    [].

Definition shopping_items_table : Table :=
  mkTable "shopping_items"
    [ col "id" "INTEGER PRIMARY KEY AUTOINCREMENT";
      col "item_name" "TEXT NOT NULL";
      col "completed" "BOOLEAN DEFAULT FALSE";
      col "added_by" "INTEGER NOT NULL";
      col "completed_by" "INTEGER";
      col "created_at" "TIMESTAMP DEFAULT CURRENT_TIMESTAMP";
      col "completed_at" "TIMESTAMP" ]
    [ "FOREIGN KEY (added_by) REFERENCES users (id)";
      "FOREIGN KEY (completed_by) REFERENCES users (id)" ].

Definition chores_table : Table :=
  mkTable "chores"
    [ col "id" "INTEGER PRIMARY KEY AUTOINCREMENT";
      col "chore_name" "TEXT NOT NULL";
      col "assigned_to" "INTEGER";
      col "completed" "BOOLEAN DEFAULT FALSE";
      col "added_by" "INTEGER NOT NULL";
      col "completed_by" "INTEGER";
      col "created_at" "TIMESTAMP DEFAULT CURRENT_TIMESTAMP";
      col "completed_at" "TIMESTAMP" ]
    [ "FOREIGN KEY (assigned_to) REFERENCES users (id)";
      "FOREIGN KEY (added_by) REFERENCES users (id)";
      "FOREIGN KEY (completed_by) REFERENCES users (id)" ].

Definition expiry_items_table : Table :=
  mkTable "expiry_items"
    [ col "id" "INTEGER PRIMARY KEY AUTOINCREMENT";
      col "item_name" "TEXT NOT NULL";
      col "expiry_date" "DATE NOT NULL";
      col "added_by" "INTEGER NOT NULL";
      col "created_at" "TIMESTAMP DEFAULT CURRENT_TIMESTAMP" ]
    [ "FOREIGN KEY (added_by) REFERENCES users (id)" ].

Definition bills_table : Table :=
  mkTable "bills"
    [ col "id" "INTEGER PRIMARY KEY AUTOINCREMENT";
      col "bill_name" "TEXT NOT NULL";
      col "amount" "DECIMAL(10,2) NOT NULL";
      col "due_day" "INTEGER NOT NULL";
      col "added_by" "INTEGER NOT NULL";
      col "created_at" "TIMESTAMP DEFAULT CURRENT_TIMESTAMP" ]
    [ "FOREIGN KEY (added_by) REFERENCES users (id)" ].

Definition settings_table : Table :=
  mkTable "settings"
    [ col "key" "TEXT PRIMARY KEY";
      col "value" "TEXT NOT NULL" ]
    [].

(** The list [migrations] of [_run_migrations]: statement and description. *)
Definition migrations : list (Ddl * string) :=
  [ (AlterTableAddColumn "shopping_items" (col "completed" "BOOLEAN DEFAULT FALSE"),
     "shopping_items completed column");
    (AlterTableAddColumn "shopping_items" (col "completed_by" "INTEGER"),
     "shopping_items completed_by column");
    (AlterTableAddColumn "shopping_items" (col "completed_at" "TIMESTAMP"),
     "shopping_items completed_at column");
    (AlterTableAddColumn "users" (col "supabase_id" "TEXT"),
     "users supabase_id column") ].

(** The state of a start-up: the schema behind [conn] and the log. *)
Definition St : Type := Schema * Log.

(** The body of the [try]/[except sqlite3.OperationalError] of one round of
    the loop: [None] when the round ends normally, [Some e] when [e]
    propagates out of [_run_migrations]. *)
Definition run_one (migration : Ddl) (description : string) (st : St)
  : option Exn * St :=
  let '(conn, log) := st in
  match execute migration conn with
  | Return conn' =>
      (None, (conn', log ++ [mkLog INFO ("Applied migration: " ++ description)%string]))
  | Raise (OperationalError msg) =>
      if contains "duplicate column name" (lower msg)
         || contains "already exists" (lower msg)
      then (None, (conn, log ++ [mkLog DEBUG
                     ("Migration already applied: " ++ description)%string]))
      else (None, (conn, log ++ [mkLog WARNING
                     ("Migration failed: " ++ description ++ " - " ++ msg)%string]))
  | Raise e => (Some e, (conn, log))
  end.

(** [for migration, description in ms: ...] *)
Fixpoint run_loop (ms : list (Ddl * string)) (st : St) : Outcome unit * St :=
  match ms with
  | [] => (Return tt, st)
  | (migration, description) :: rest =>
      match run_one migration description st with
      | (None, st') => run_loop rest st'
      | (Some e, st') => (Raise e, st')
      end
  end.

Definition _run_migrations (st : St) : Outcome unit * St :=
  run_loop migrations st.

(** The [CREATE TABLE IF NOT EXISTS] statements of [init_db], in order. *)
Definition create_statements : list Ddl :=
  map CreateTableIfNotExists
    [ users_table; shopping_items_table; chores_table; expiry_items_table;
      bills_table; settings_table ].

(** These [conn.execute] calls stand outside any [try]. *)
Fixpoint execute_all (stmts : list Ddl) (s : Schema) : Outcome Schema :=
  match stmts with
  | [] => Return s
  | stmt :: rest =>
      match execute stmt s with
      | Return s' => execute_all rest s'
      | Raise e => Raise e
      end
  end.

(** [Database.init_db]: the schema of the file and the log, before and
    after.  [commit] and [close] follow the migrations and change neither. *)
Definition init_db (st : St) : Outcome unit * St :=
  let '(s, log) := st in
  match execute_all create_statements s with
  | Raise e => (Raise e, st)
  | Return s' => _run_migrations (s', log)
  end.

End Schema.

(** ** [models.py]: the users table and [UserModel] *)

Module Models.
Import Py PyStr Config Supabase.

(** [datetime.now().isoformat()]: the reading of the clock. *)
Definition Timestamp := nat.

(** A row of [users]; a nullable column is an [option].  [supabase_id] is
    nullable in installations where the migration added the column. *)
Record Row := mkRow {
  id : Z;
  username : option string;
  email : string;
  full_name : option string;
  is_admin : bool;
  supabase_id : option string;
  last_login : option Timestamp;
  created_at : option Timestamp;
  last_activity : option Timestamp
}.

(** The table, in rowid order. *)
Definition Store := list Row.

(** The seven values of the [INSERT] statement. *)
Record Values := mkValues {
  v_username : string;
  v_email : string;
  v_full_name : string;
  v_supabase_id : string;
  v_is_admin : bool;
  v_last_login : Timestamp;
  v_created_at : Timestamp
}.

(** The calls made on [conn], as a trace. *)
Inductive Sql :=
| SelectBySupabaseId (sid : string)
| SelectByEmail (e : string)
| SelectById (i : Z)
| UpdateSupabaseId (sid : string) (i : Z)
| UpdateLogin (now : Timestamp) (name : string) (admin : bool) (i : Z)
| InsertUser (v : Values)
| Commit
| Close.

(** *** The store's own behaviour *)

Definition opt_eqb (a : option string) (b : string) : bool :=
  match a with Some x => String.eqb x b | None => false end.

(** [SELECT * FROM users WHERE ... = ?] followed by [fetchone()]; text is
    compared exactly. *)
Definition find_by_supabase_id (sid : string) (s : Store) : option Row :=
  find (fun r => opt_eqb (supabase_id r) sid) s.

Definition find_by_email (e : string) (s : Store) : option Row :=
  find (fun r => String.eqb (email r) e) s.

Definition find_by_id (i : Z) (s : Store) : option Row :=
  find (fun r => Z.eqb (id r) i) s.

(** [UPDATE users SET ... WHERE id = ?] *)
Definition update_where_id (i : Z) (f : Row -> Row) (s : Store) : Store :=
  map (fun r => if Z.eqb (id r) i then f r else r) s.

Definition set_supabase_id (sid : string) (r : Row) : Row :=
  mkRow (id r) (username r) (email r) (full_name r) (is_admin r) (Some sid)
        (last_login r) (created_at r) (last_activity r).

Definition set_login (now : Timestamp) (name : string) (admin : bool) (r : Row) : Row :=
  mkRow (id r) (username r) (email r) (Some name) admin (supabase_id r)
        (Some now) (created_at r) (last_activity r).

(** Is [sid] held by a row other than row [i]? *)
Definition supabase_id_taken (sid : string) (i : Z) (s : Store) : bool :=
  existsb (fun r => negb (Z.eqb (id r) i) && opt_eqb (supabase_id r) sid) s.

Definition email_taken (e : string) (s : Store) : bool :=
  existsb (fun r => String.eqb (email r) e) s.

(** [id INTEGER PRIMARY KEY AUTOINCREMENT]: one more than the largest id. *)
Definition next_id (s : Store) : Z :=
  1 + fold_right (fun r m => Z.max (id r) m) 0%Z s.

Definition new_row (i : Z) (v : Values) : Row :=
  mkRow i (Some (v_username v)) (v_email v) (Some (v_full_name v))
        (v_is_admin v) (Some (v_supabase_id v)) (Some (v_last_login v))
        (Some (v_created_at v)) None.

(** The [INSERT] against a table: a value already held in a [UNIQUE] column
    makes it fail and leaves the table as it was.  [email] is [UNIQUE];
    [supabase_id] is [UNIQUE] when [unique_sid] holds, that is in a table
    made by the [CREATE TABLE] of [init_db], and not in a table to which
    the migration added the column as plain [TEXT].  SQLite tests the
    index on [supabase_id] before the one on [email]. *)
Definition insert_into (unique_sid : bool) (v : Values) (s : Store)
  : Outcome Store :=
  if unique_sid
     && existsb (fun r => opt_eqb (supabase_id r) (v_supabase_id v)) s
  then Raise (IntegrityError "UNIQUE constraint failed: users.supabase_id")
  else if email_taken (v_email v) s
  then Raise (IntegrityError "UNIQUE constraint failed: users.email")
  else Return (s ++ [new_row (next_id s) v]).

(** Inserts committed by other connections; one that violates a constraint
    fails on its own side and changes nothing. *)
Fixpoint commit_rivals (unique_sid : bool) (vs : list Values) (s : Store)
  : Store :=
  match vs with
  | [] => s
  | v :: rest =>
      match insert_into unique_sid v s with
      | Return s' => commit_rivals unique_sid rest s'
      | Raise _ => commit_rivals unique_sid rest s
      end
  end.

(** *** The database file and the connection *)

(** - [file]: the committed table, what every connection reads;
    - [pending]: the table as this connection sees it inside its open write
      transaction ([None] outside one); lost unless committed;
    - [open_conns]: connections opened and not closed;
    - [executed]: the calls made on connections, oldest first;
    - [clock]: the next reading of [datetime.now()];
    - [rivals]: inserts that other connections commit after this
      connection's reads and before its [INSERT] takes the write lock
      (empty when calls do not overlap);
    - [supabase_id_unique]: the table has [supabase_id TEXT UNIQUE NOT
      NULL], as [init_db] creates it; [false] for a table that was there
      before and got the column from the migration, as plain [TEXT]. *)
Record World := mkWorld {
  file : Store;
  pending : option Store;
  open_conns : nat;
  executed : list Sql;
  clock : Timestamp;
  rivals : list Values;
  supabase_id_unique : bool
}.

Definition view (w : World) : Store :=
  match pending w with Some s => s | None => file w end.

Definition M (A : Type) : Type := World -> Outcome A * World.

Definition ret {A} (a : A) : M A := fun w => (Return a, w).

Definition raise {A} (e : Exn) : M A := fun w => (Raise e, w).

Definition bind {A B} (c : M A) (k : A -> M B) : M B :=
  fun w =>
    match c w with
    | (Return a, w') => k a w'
    | (Raise e, w') => (Raise e, w')
    end.

Notation "x <- c ;; k" := (bind c (fun x => k))
  (at level 61, c at next level, right associativity).
Notation "c ;;; k" := (bind c (fun _ => k))
  (at level 61, right associativity).

Definition traced (q : Sql) (w : World) : World :=
  mkWorld (file w) (pending w) (open_conns w) (executed w ++ [q])
          (clock w) (rivals w) (supabase_id_unique w).

Definition set_pending (s : Store) (w : World) : World :=
  mkWorld (file w) (Some s) (open_conns w) (executed w) (clock w) (rivals w)
          (supabase_id_unique w).

(** [self.db.get_connection()]: a new connection, outside any transaction.
    It reads [file]: what a connection abandoned by an earlier call had not
    committed is rolled back when that connection is finalised, and no
    other connection ever sees it.  A call is taken to start after that
    finalisation; before it, SQLite refuses the writes of other
    connections ("database is locked"). *)
Definition get_connection : M unit :=
  fun w => (Return tt,
            mkWorld (file w) None (S (open_conns w)) (executed w)
                    (clock w) (rivals w) (supabase_id_unique w)).

(** [datetime.now().isoformat()] *)
Definition now : M Timestamp :=
  fun w => (Return (clock w),
            mkWorld (file w) (pending w) (open_conns w) (executed w)
                    (S (clock w)) (rivals w) (supabase_id_unique w)).

Definition select_by_supabase_id (sid : string) : M (option Row) :=
  fun w => (Return (find_by_supabase_id sid (view w)),
            traced (SelectBySupabaseId sid) w).

Definition select_by_email (e : string) : M (option Row) :=
  fun w => (Return (find_by_email e (view w)), traced (SelectByEmail e) w).

Definition select_by_id (i : Z) : M (option Row) :=
  fun w => (Return (find_by_id i (view w)), traced (SelectById i) w).

(** [UPDATE users SET supabase_id = ? WHERE id = ?]; it fails where the
    column is [UNIQUE] and another row holds the value. *)
Definition update_supabase_id (sid : string) (i : Z) : M unit :=
  fun w =>
    let w := traced (UpdateSupabaseId sid i) w in
    match find_by_id i (view w) with
    | Some _ =>
        if supabase_id_unique w && supabase_id_taken sid i (view w)
        then (Raise (IntegrityError "UNIQUE constraint failed: users.supabase_id"), w)
        else (Return tt, set_pending (update_where_id i (set_supabase_id sid) (view w)) w)
    | None => (Return tt, set_pending (view w) w)
    end.

(** [UPDATE users SET last_login = ?, full_name = ?, is_admin = ? WHERE id = ?] *)
Definition update_login (t : Timestamp) (name : string) (admin : bool) (i : Z) : M unit :=
  fun w =>
    let w := traced (UpdateLogin t name admin i) w in
    (Return tt, set_pending (update_where_id i (set_login t name admin) (view w)) w).

(** Other connections commit before the write lock is taken. *)
Definition admit_rivals (w : World) : World :=
  match pending w with
  | Some _ => w
  | None => mkWorld (commit_rivals (supabase_id_unique w) (rivals w) (file w))
                    None (open_conns w) (executed w) (clock w) []
                    (supabase_id_unique w)
  end.

(** [INSERT INTO users (...) VALUES (?, ?, ?, ?, ?, ?, ?)] *)
Definition insert_user (v : Values) : M unit :=
  fun w =>
    let w := traced (InsertUser v) (admit_rivals w) in
    match insert_into (supabase_id_unique w) v (view w) with
    | Return s' => (Return tt, set_pending s' w)
    | Raise e => (Raise e, w)
    end.

(** [conn.commit()] *)
Definition commit : M unit :=
  fun w => (Return tt,
            mkWorld (view w) None (open_conns w) (executed w ++ [Commit])
                    (clock w) (rivals w) (supabase_id_unique w)).

(** [conn.close()]: what was not committed is rolled back. *)
Definition close : M unit :=
  fun w => (Return tt,
            mkWorld (file w) None (pred (open_conns w)) (executed w ++ [Close])
                    (clock w) (rivals w) (supabase_id_unique w)).

(** [conn.lastrowid]: [conn] is a [sqlite3.Connection], and [lastrowid] is
    an attribute of cursors only. *)
Definition conn_lastrowid : M Z :=
  raise (AttributeError
    "'sqlite3.Connection' object has no attribute 'lastrowid'").

(** *** [UserModel.get_or_create_supabase_user], lines 160-233 *)

Definition get_or_create_supabase_user
    (supabase_user : SupabaseUser) (access_control : AccessControl)
  : M (option Row) :=
  get_connection ;;;
  let email := su_email supabase_user in
  let supabase_id := su_id supabase_user in
  let meta := match su_user_metadata supabase_user with
              | Some m => m
              | None => []
              end in
  let local_part := hd EmptyString (split "@" email) in
  let full_name :=
    dict_get_default "full_name" meta (dict_get_default "name" meta local_part) in
  let username := dict_get_default "username" meta local_part in
  let is_admin := py_in (lower email) (admin_emails access_control) in
  user <- select_by_supabase_id supabase_id ;;
  user <- match user with
          | Some _ => ret user
          | None =>
              user <- select_by_email email ;;
              match user with
              | Some u =>
                  update_supabase_id supabase_id (id u) ;;;
                  commit ;;;
                  select_by_id (id u)
              | None => ret user
              end
          end ;;
  match user with
  | Some u =>
      t <- now ;;
      update_login t full_name is_admin (id u) ;;;
      commit ;;;
      close ;;;
      ret user
  | None =>
      t1 <- now ;;
      t2 <- now ;;
      insert_user (mkValues username email full_name supabase_id is_admin t1 t2) ;;;
      user_id <- conn_lastrowid ;;
      commit ;;;
      user <- select_by_id user_id ;;
      close ;;;
      ret user
  end.

(** Every row has its external reference. *)
Definition all_linked (s : Store) : bool :=
  forallb (fun r => match supabase_id r with Some _ => true | None => false end) s.

(** A database file holding [s], with no connection open.  The table is
    the one [init_db] creates when every row has its external reference; a
    row without one can only be in a table that got the column from the
    migration. *)
Definition at_rest (s : Store) (t : Timestamp) : World :=
  mkWorld s None 0 [] t [] (all_linked s).

(** *** [UserModel.update_last_activity] and [UserModel.get_user_by_id] *)

Definition set_last_activity (t : Timestamp) (r : Row) : Row :=
  mkRow (id r) (username r) (email r) (full_name r) (is_admin r)
        (supabase_id r) (last_login r) (created_at r) (Some t).

(** [UPDATE users SET last_activity = ? WHERE id = ?]; [Sql] names the
    statements of the reconciliation only, so this one leaves [executed]
    as it is. *)
Definition update_activity (t : Timestamp) (i : Z) : M unit :=
  fun w =>
    (Return tt, set_pending (update_where_id i (set_last_activity t) (view w)) w).

(** Lines 235-243.  [user_id] is an id as the table holds them, an integer
    of 64 bits; [sqlite3] refuses a larger parameter before the statement
    runs. *)
Definition update_last_activity (user_id : Z) : M unit :=
  get_connection ;;;
  t <- now ;;
  update_activity t user_id ;;;
  commit ;;;
  close.

(** Lines 245-250; [user_id] as for [update_last_activity]. *)
Definition get_user_by_id (user_id : Z) : M (option Row) :=
  get_connection ;;;
  user <- select_by_id user_id ;;
  close ;;;
  ret user.

End Models.

(** ** [test_imports.py] *)

Module TestImports.
Import Py.

(** What the script writes: a line on standard output, or the traceback of
    an exception on standard error. *)
Inductive Output :=
| Stdout (line : string)
| Traceback (e : Exn).

(** [str * n] *)
Fixpoint repeat_str (s : string) (n : nat) : string :=
  match n with
  | O => EmptyString
  | S k => (s ++ repeat_str s k)%string
  end.

(** [str(n)] for a count. *)
Definition str_nat (n : nat) : string := str_Z (Z.of_nat n).

(** [test_import], lines 9-19; [__import__] is the argument
    [import_module]. *)
Definition test_import (import_module : string -> Outcome unit)
    (module_name description : string) : bool * list Output :=
  match import_module module_name with
  | Return _ =>
      (true, [Stdout ("✅ " ++ description ++ ": " ++ module_name)%string])
  | Raise e =>
      (false,
       [Stdout ("❌ " ++ description ++ ": " ++ module_name)%string;
        Stdout ("   Error: " ++ str_exn e)%string;
        Traceback e])
  end.

Definition modules_to_test : list (string * string) :=
  [ ("config", "Configuration module");
    ("database", "Database utilities");
    ("authentication", "Authentication module");
    ("security", "Security utilities");
    ("routes.dashboard", "Dashboard routes");
    ("routes.shopping", "Shopping routes");
    ("routes.chores", "Chores routes");
    ("routes.bills", "Bills routes");
    ("routes.expiry", "Expiry routes") ].

(** The loop of [main], lines 41-44: the count and the output so far. *)
Fixpoint run_tests (import_module : string -> Outcome unit)
    (ms : list (string * string)) (success_count : nat) (out : list Output)
  : nat * list Output :=
  match ms with
  | [] => (success_count, out)
  | (module_name, description) :: rest =>
      let '(ok, printed) := test_import import_module module_name description in
      run_tests import_module rest
        (if ok then S success_count else success_count)
        (out ++ printed ++ [Stdout EmptyString])
  end.

(** [main], lines 21-54: the exit status and everything written. *)
Definition main (import_module : string -> Outcome unit) : Z * list Output :=
  let out := [Stdout "Testing module imports..."; Stdout (repeat_str "=" 50)] in
  let success_count := O in
  let total_count := List.length modules_to_test in
  let '(success_count, out) :=
    run_tests import_module modules_to_test success_count out in
  let out := out ++ [Stdout (repeat_str "=" 50);
                     Stdout ("Import Test Results: " ++ str_nat success_count
                             ++ "/" ++ str_nat total_count ++ " successful")%string] in
  if Nat.eqb success_count total_count
  then (0%Z, out ++ [Stdout "🎉 All imports successful!"])
  else (1%Z, out ++ [Stdout "⚠️  Some imports failed. Check errors above."]).

End TestImports.

(** * Properties *)

(** ** Strings and the loaded policy *)

Module PyStrFacts.
Import PyStr.

Lemma lower_ascii_idem c : lower_ascii (lower_ascii c) = lower_ascii c.
Proof. destruct c as [[] [] [] [] [] [] [] []]; reflexivity. Qed.

Lemma lower_idem s : lower (lower s) = lower s.
Proof.
  induction s as [|c r IH]; simpl; [reflexivity|].
  now rewrite lower_ascii_idem, IH.
Qed.

Lemma py_in_In x xs : py_in x xs = true <-> In x xs.
Proof.
  unfold py_in. rewrite existsb_exists. split.
  - intros [y [Hy He]]. apply String.eqb_eq in He. now subst.
  - intros H. exists x. split; [assumption|apply String.eqb_refl].
Qed.

Lemma split_nonempty sep s : split sep s <> [].
Proof.
  unfold split. generalize EmptyString as acc.
  induction s as [|c r IH]; intros acc; simpl; [discriminate|].
  destruct (Ascii.eqb c sep); [discriminate|apply IH].
Qed.

End PyStrFacts.

Module ConfigFacts.
Import PyStr PyStrFacts Config.

Lemma parse_emails_normalized s : normalized (parse_emails s).
Proof.
  unfold normalized, parse_emails. apply Forall_forall.
  intros e He. apply in_map_iff in He as [x [<- _]]. apply lower_idem.
Qed.

Lemma normalized_map_lower l : normalized l -> map lower l = l.
Proof.
  induction 1 as [|e l He _ IH]; simpl; [reflexivity|].
  now rewrite He, IH.
Qed.

Lemma load_access_control_normalized env :
  normalized (allowed_emails (load_access_control env)) /\
  normalized (admin_emails (load_access_control env)).
Proof.
  unfold load_access_control; simpl. split.
  - destruct (truthy_str _); [apply parse_emails_normalized|constructor].
  - destruct (truthy_str _); [apply parse_emails_normalized|constructor].
Qed.

End ConfigFacts.

(** ** The login route *)

Module AppFacts.
Import Py PyStr PyStrFacts Config ConfigFacts Flask Supabase App.

(** The gate on a policy whose entries are lower-cased. *)
Lemma login_gate_normalized (P : AccessControl) (E : string) :
  normalized (allowed_emails P) -> normalized (admin_emails P) ->
  (login_gate P E = true <->
   allowed_emails P = [] \/ In (lower E) (allowed_emails P)
   \/ In (lower E) (admin_emails P)).
Proof.
  intros Hal Had. unfold login_gate.
  rewrite (normalized_map_lower _ Hal), (normalized_map_lower _ Had).
  destruct (allowed_emails P) as [|a l] eqn:Ea; cbn [truthy_list andb].
  - split; [intros _; now left | reflexivity].
  - destruct (py_in (lower E) (a :: l)) eqn:Hin; cbn [negb].
    + split; [intros _|reflexivity]. right; left. now apply py_in_In.
    + destruct (py_in (lower E) (admin_emails P)) eqn:Hadm; cbn [negb].
      * split; [intros _|reflexivity]. right; right. now apply py_in_In.
      * split; [discriminate|].
        intros [H|[H|H]]; [discriminate| |].
        -- apply py_in_In in H. congruence.
        -- apply py_in_In in H. congruence.
Qed.

(** C1. For every e-mail [E] and every policy [P] loaded from the
    environment, the login gate lets [E] pass exactly when [P.allowed] is
    empty, or [lower(E)] is in [P.allowed], or [lower(E)] is in [P.admins].
    So an admin missing from a non-empty allow-list still passes, and with
    an empty allow-list everyone passes whatever the admins are. *)
Theorem login_gate_loaded_policy (env : Env) (E : string) :
  let P := load_access_control env in
  (login_gate P E = true <->
   allowed_emails P = [] \/ In (lower E) (allowed_emails P)
   \/ In (lower E) (admin_emails P)).
Proof.
  intros P. destruct (load_access_control_normalized env) as [Hal Had].
  now apply login_gate_normalized.
Qed.

(** The route applies the gate to a user the provider has authenticated:
    it goes on to the reconciliation when the gate lets the e-mail pass, and
    otherwise signs out at the provider and never reconciles. *)
Lemma login_applies_gate sb P reconcile request res user :
  method request = POST ->
  sign_in_with_password sb (form_email request) (form_password request)
    = Return res ->
  res_user res = Some user ->
  let '(_, _, events) := login (Some sb) P reconcile None request in
  if login_gate P (form_email request)
  then In (Reconcile user) events /\ ~ In SignOut events
  else In SignOut events /\ ~ In (Reconcile user) events.
Proof.
  intros Hm Hs Hu. unfold login. rewrite Hm, Hs, Hu.
  destruct (login_gate P (form_email request)).
  - destruct (reconcile user P); simpl; split; try tauto;
      intros H; repeat (destruct H as [H|H]; try discriminate; try assumption).
  - destruct (sign_out sb); simpl; split; try tauto;
      intros H; repeat (destruct H as [H|H]; try discriminate; try assumption).
Qed.

(** C10. A request to the login endpoint, GET or POST, that arrives with a
    session is answered by a redirect to the dashboard: whatever the policy,
    the provider and the form hold, nothing is evaluated or contacted and
    the session is kept as it is. *)
Theorem login_with_session_redirects
    (supabase : option Provider) (P : AccessControl)
    (reconcile : SupabaseUser -> AccessControl -> Outcome LocalUser)
    (u : SessionUser) (request : Request) :
  login supabase P reconcile (Some u) request
  = (Redirect "dashboard", Some u, []).
Proof. reflexivity. Qed.

End AppFacts.

(** ** The feature guard *)

Module AuthenticationFacts.
Import Py PyStr Flask Authentication App.

(** What the guard logs when the feature is switched off. *)
Definition disabled_warning (u : SessionUser) (feature : string) : LogRecord :=
  mkLog WARNING ("User " ++ str_Z (s_id u)
                 ++ " attempted to access disabled feature: " ++ feature)%string.

(** The guard has no handler of its own: an exception of the lookup leaves
    the guard as it is, and the view is not run. *)
Lemma feature_required_propagates lookup feature f u log e log' :
  lookup (s_id u) feature log = (Raise e, log') ->
  feature_required lookup feature f (Some u) log = (Raise e, log').
Proof.
  intros H. unfold feature_required, bind. now rewrite H.
Qed.

(** When loading the features fails, the context processor answers with
    every feature visible and logs the fault. *)
Lemma inject_user_features_fails_open get_all u e :
  get_all (s_id u) = Raise e ->
  inject_user_features get_all (Some u)
  = (all_features_visible,
     [mkLog ERROR ("Error loading user features: " ++ str_exn e)%string]).
Proof. intros H. unfold inject_user_features. now rewrite H. Qed.

(** C7 (as the code has it). For an authenticated request the guard runs
    the protected view when the lookup answers true, and redirects to
    "unauthorized" with a warning when it answers false.  It handles no
    exception: when the lookup raises, the exception leaves the guard, the
    view is not run and the guard logs nothing.  Failing open with the
    fault logged is what [inject_user_features] does. *)
Theorem feature_guard_outcomes
    (lookup : Z -> string -> M bool) (feature : string) (f : M Response)
    (u : SessionUser) (log : Log) :
  feature_required lookup feature f (Some u) log
  = match lookup (s_id u) feature log with
    | (Return true, log') => f log'
    | (Return false, log') =>
        (Return (Redirect "unauthorized"),
         log' ++ [disabled_warning u feature])
    | (Raise e, log') => (Raise e, log')
    end
  /\
  forall get_all e,
    get_all (s_id u) = Raise e ->
    inject_user_features get_all (Some u)
    = (all_features_visible,
       [mkLog ERROR ("Error loading user features: " ++ str_exn e)%string]).
Proof.
  split.
  - unfold feature_required, bind.
    destruct (lookup (s_id u) feature log) as [[[|]|e] log']; reflexivity.
  - intros get_all e. apply inject_user_features_fails_open.
Qed.

(** The feature store cannot be reached. *)
Definition failing_lookup : Z -> string -> M bool :=
  fun _ _ log => (Raise (OperationalError "unable to open database file"), log).

Definition bills_view : M Response :=
  fun log => (Return (RenderTemplate "bills.html"), log).

Definition alice : SessionUser :=
  mkSessionUser 7 (Some "sb-7") (Some "alice") "alice@x.com" (Some "Alice")
                false "token".

(** C7, counterexample. With a lookup that raises, the guard does not run
    the view and logs nothing: the exception of the store is its result. *)
Lemma feature_guard_does_not_fail_open :
  feature_required failing_lookup "bills" bills_view (Some alice) []
  = (Raise (OperationalError "unable to open database file"), []) /\
  feature_required failing_lookup "bills" bills_view (Some alice) []
  <> bills_view [].
Proof. split; [reflexivity|discriminate]. Qed.

End AuthenticationFacts.

(** ** Schema initialisation *)

Module SchemaFacts.
Import Py PyStr Schema.

(** Table [n] exists. *)
Definition table_exists (n : string) (s : Schema) : Prop :=
  exists t, find_table n s = Some t.

(** Table [n] exists and has a column [c]. *)
Definition column_exists (n c : string) (s : Schema) : Prop :=
  exists t, find_table n s = Some t /\ has_column c t = true.

(** What a start-up leaves behind: the six tables and the four migrated
    columns. *)
Definition initialised (s : Schema) : Prop :=
  Forall (fun t => table_exists (tbl_name t) s)
         [ users_table; shopping_items_table; chores_table;
           expiry_items_table; bills_table; settings_table ] /\
  Forall (fun m => match fst m with
                   | AlterTableAddColumn n c => column_exists n (col_name c) s
                   | CreateTableIfNotExists _ => True
                   end) migrations.

(** The log of a start-up that finds every migration applied. *)
Definition already_applied : Log :=
  map (fun m => mkLog DEBUG ("Migration already applied: " ++ snd m)%string)
      migrations.

(** The class of failures the runner takes for success. *)
Definition duplicate_class (msg : string) : bool :=
  contains "duplicate column name" (lower msg)
  || contains "already exists" (lower msg).

Lemma same_ident_refl a : same_ident a a = true.
Proof. apply String.eqb_refl. Qed.

Lemma find_table_app n s t x :
  find_table n s = Some x -> find_table n (s ++ [t]) = Some x.
Proof.
  induction s as [|t0 s IH]; simpl; [discriminate|].
  destruct (same_ident (tbl_name t0) n); [trivial|exact IH].
Qed.

Lemma find_table_app_new s t :
  find_table (tbl_name t) s = None ->
  find_table (tbl_name t) (s ++ [t]) = Some t.
Proof.
  induction s as [|t0 s IH]; simpl.
  - now rewrite same_ident_refl.
  - destruct (same_ident (tbl_name t0) (tbl_name t)); [discriminate|exact IH].
Qed.

Lemma has_column_app c cols extra cons n :
  has_column c (mkTable n cols cons) = true ->
  has_column c (mkTable n (cols ++ extra) cons) = true.
Proof.
  unfold has_column; simpl. rewrite existsb_app. intros ->. reflexivity.
Qed.

(** Adding a column keeps every table and every column. *)
Lemma find_table_add_column m n c s t :
  find_table m s = Some t ->
  exists t', find_table m (add_column n c s) = Some t' /\
             forall c', has_column c' t = true -> has_column c' t' = true.
Proof.
  induction s as [|t0 s IH]; simpl; [discriminate|].
  destruct (same_ident (tbl_name t0) n) eqn:En; simpl.
  - destruct (same_ident (tbl_name t0) m) eqn:Em.
    + intros [= <-]. eexists; split; [reflexivity|].
      intros c'. destruct t0; apply has_column_app.
    + intros H. exists t. split; [assumption|trivial].
  - destruct (same_ident (tbl_name t0) m) eqn:Em.
    + intros [= <-]. exists t0. split; [reflexivity|trivial].
    + exact IH.
Qed.

(** The added column is there afterwards. *)
Lemma add_column_adds n c s t :
  find_table n s = Some t ->
  exists t', find_table n (add_column n c s) = Some t' /\
             has_column (col_name c) t' = true.
Proof.
  induction s as [|t0 s IH]; simpl; [discriminate|].
  destruct (same_ident (tbl_name t0) n) eqn:En; simpl.
  - rewrite En. intros _. eexists; split; [reflexivity|].
    unfold has_column; simpl. rewrite existsb_app; simpl.
    rewrite same_ident_refl. now rewrite orb_true_r.
  - rewrite En. exact IH.
Qed.

(** [execute] fails with [sqlite3.OperationalError] only. *)
Lemma execute_raises_operational stmt s e :
  execute stmt s = Raise e -> exists msg, e = OperationalError msg.
Proof.
  destruct stmt as [t|n c]; simpl.
  - destruct (find_table (tbl_name t) s); discriminate.
  - destruct (find_table n s) as [t|].
    + destruct (has_column (col_name c) t); [|discriminate].
      intros [= <-]. eauto.
    + intros [= <-]. eauto.
Qed.

(** What exists survives every statement that succeeds. *)
Lemma execute_keeps stmt s s' :
  execute stmt s = Return s' ->
  (forall n, table_exists n s -> table_exists n s') /\
  (forall n c, column_exists n c s -> column_exists n c s').
Proof.
  destruct stmt as [t|n0 c0]; simpl.
  - destruct (find_table (tbl_name t) s) eqn:Ef; intros [= <-].
    + split; trivial.
    + split.
      * intros n [x Hx]. exists x. now apply find_table_app.
      * intros n c [x [Hx Hc]]. exists x. split; [now apply find_table_app|assumption].
  - destruct (find_table n0 s) as [t|] eqn:Ef; [|discriminate].
    destruct (has_column (col_name c0) t); [discriminate|].
    intros [= <-]. split.
    + intros n [x Hx].
      destruct (find_table_add_column n n0 c0 s x Hx) as [x' [Hx' _]]. now exists x'.
    + intros n c [x [Hx Hc]].
      destruct (find_table_add_column n n0 c0 s x Hx) as [x' [Hx' Hk]].
      exists x'. split; [assumption|now apply Hk].
Qed.

Lemma create_establishes t s :
  exists s', execute (CreateTableIfNotExists t) s = Return s' /\
             table_exists (tbl_name t) s'.
Proof.
  simpl. destruct (find_table (tbl_name t) s) as [x|] eqn:Ef.
  - exists s. split; [reflexivity|now exists x].
  - exists (s ++ [t]). split; [reflexivity|].
    exists t. now apply find_table_app_new.
Qed.

Lemma create_noop t s :
  table_exists (tbl_name t) s ->
  execute (CreateTableIfNotExists t) s = Return s.
Proof. intros [x Hx]. simpl. now rewrite Hx. Qed.

Lemma alter_duplicate n c s :
  column_exists n (col_name c) s ->
  execute (AlterTableAddColumn n c) s
  = Raise (OperationalError ("duplicate column name: " ++ col_name c)%string).
Proof. intros [t [Ht Hc]]. simpl. now rewrite Ht, Hc. Qed.

(** One round of the loop never lets an exception out, and keeps what
    exists. *)
Lemma run_one_total migration description conn log :
  exists conn' log',
    run_one migration description (conn, log) = (None, (conn', log')) /\
    (forall n, table_exists n conn -> table_exists n conn') /\
    (forall n c, column_exists n c conn -> column_exists n c conn').
Proof.
  unfold run_one. destruct (execute migration conn) as [conn'|e] eqn:Ex.
  - do 2 eexists. split; [reflexivity|]. now apply (execute_keeps migration).
  - destruct (execute_raises_operational _ _ _ Ex) as [msg ->].
    destruct (contains "duplicate column name" (lower msg)
              || contains "already exists" (lower msg));
      do 2 eexists; (split; [reflexivity|split; trivial]).
Qed.

(** After its round, the column of an [ALTER TABLE] on an existing table is
    there. *)
Lemma run_one_alter n c description conn log conn' log' :
  table_exists n conn ->
  run_one (AlterTableAddColumn n c) description (conn, log)
    = (None, (conn', log')) ->
  column_exists n (col_name c) conn'.
Proof.
  intros [t Ht]. unfold run_one. simpl. rewrite Ht.
  destruct (has_column (col_name c) t) eqn:Hc.
  - destruct (_ || _); intros [= <- _]; exists t; auto.
  - intros [= <- _].
    destruct (add_column_adds n c conn t Ht) as [t' [Ht' Hc']]. now exists t'.
Qed.

Lemma run_loop_total ms st :
  exists st', run_loop ms st = (Return tt, st').
Proof.
  revert st. induction ms as [|[m d] ms IH]; intros [conn log]; cbn [run_loop].
  - eauto.
  - destruct (run_one_total m d conn log) as [conn' [log' [-> _]]]. apply IH.
Qed.

Lemma run_loop_keeps ms conn log conn' log' :
  run_loop ms (conn, log) = (Return tt, (conn', log')) ->
  (forall n, table_exists n conn -> table_exists n conn') /\
  (forall n c, column_exists n c conn -> column_exists n c conn').
Proof.
  revert conn log. induction ms as [|[m d] ms IH]; intros conn log; cbn [run_loop].
  - intros [= <- _]. split; trivial.
  - destruct (run_one_total m d conn log) as [c1 [l1 [-> [Kt Kc]]]].
    intros H. destruct (IH _ _ H) as [Kt' Kc']. split; auto.
Qed.

Lemma execute_all_creates ts s :
  exists s', execute_all (map CreateTableIfNotExists ts) s = Return s' /\
             Forall (fun t => table_exists (tbl_name t) s') ts /\
             (forall n, table_exists n s -> table_exists n s') /\
             (forall n c, column_exists n c s -> column_exists n c s').
Proof.
  revert s. induction ts as [|t ts IH]; intros s.
  - exists s. simpl. repeat split; trivial.
  - destruct (create_establishes t s) as [s1 [E1 T1]].
    destruct (IH s1) as [s2 [E2 [F2 [Kt Kc]]]].
    destruct (execute_keeps _ _ _ E1) as [Kt1 Kc1].
    exists s2. cbn [map execute_all]. rewrite E1. repeat split; auto.
Qed.

Lemma execute_all_noop ts s :
  Forall (fun t => table_exists (tbl_name t) s) ts ->
  execute_all (map CreateTableIfNotExists ts) s = Return s.
Proof.
  induction 1 as [|t ts Ht _ IH]; [reflexivity|].
  cbn [map execute_all]. now rewrite (create_noop t s Ht).
Qed.

Lemma duplicate_message_class c :
  duplicate_class ("duplicate column name: " ++ c)%string = true.
Proof. reflexivity. Qed.

(** A round whose statement hits an existing column logs at debug level and
    changes nothing. *)
Lemma run_one_duplicate n c description conn log :
  column_exists n (col_name c) conn ->
  run_one (AlterTableAddColumn n c) description (conn, log)
  = (None, (conn, log ++ [mkLog DEBUG
                ("Migration already applied: " ++ description)%string])).
Proof.
  intros H. unfold run_one. rewrite (alter_duplicate n c conn H).
  fold (duplicate_class ("duplicate column name: " ++ col_name c)%string).
  now rewrite duplicate_message_class.
Qed.

(** How the handler sorts a failure of [conn.execute]. *)
Lemma run_one_failure migration description conn log msg :
  execute migration conn = Raise (OperationalError msg) ->
  run_one migration description (conn, log)
  = (None, (conn, log ++
       [if duplicate_class msg
        then mkLog DEBUG ("Migration already applied: " ++ description)%string
        else mkLog WARNING
               ("Migration failed: " ++ description ++ " - " ++ msg)%string])).
Proof.
  intros H. unfold run_one, duplicate_class. rewrite H.
  now destruct (_ || _).
Qed.

Lemma init_db_establishes s log :
  exists s1 log1,
    init_db (s, log) = (Return tt, (s1, log1)) /\ initialised s1.
Proof.
  unfold init_db, create_statements.
  destruct (execute_all_creates
              [users_table; shopping_items_table; chores_table;
               expiry_items_table; bills_table; settings_table] s)
    as [s0 [-> [F0 _]]].
  assert (Hu : table_exists "users" s0)
    by (rewrite Forall_forall in F0; apply (F0 users_table); simpl; auto).
  assert (Hs : table_exists "shopping_items" s0)
    by (rewrite Forall_forall in F0; apply (F0 shopping_items_table); simpl; auto).
  unfold _run_migrations, migrations. cbn [run_loop].
  destruct (run_one_total
              (AlterTableAddColumn "shopping_items" (col "completed" "BOOLEAN DEFAULT FALSE"))
              "shopping_items completed column" s0 log)
    as [c1 [l1 [E1 [T1 C1]]]].
  rewrite E1.
  destruct (run_one_total
              (AlterTableAddColumn "shopping_items" (col "completed_by" "INTEGER"))
              "shopping_items completed_by column" c1 l1)
    as [c2 [l2 [E2 [T2 C2]]]].
  rewrite E2.
  destruct (run_one_total
              (AlterTableAddColumn "shopping_items" (col "completed_at" "TIMESTAMP"))
              "shopping_items completed_at column" c2 l2)
    as [c3 [l3 [E3 [T3 C3]]]].
  rewrite E3.
  destruct (run_one_total
              (AlterTableAddColumn "users" (col "supabase_id" "TEXT"))
              "users supabase_id column" c3 l3)
    as [c4 [l4 [E4 [T4 C4]]]].
  rewrite E4.
  exists c4, l4. split; [reflexivity|].
  pose proof (run_one_alter _ _ _ _ _ _ _ Hs E1) as K1.
  pose proof (run_one_alter _ _ _ _ _ _ _ (T1 _ Hs) E2) as K2.
  pose proof (run_one_alter _ _ _ _ _ _ _ (T2 _ (T1 _ Hs)) E3) as K3.
  pose proof (run_one_alter _ _ _ _ _ _ _ (T3 _ (T2 _ (T1 _ Hu))) E4) as K4.
  split.
  - eapply Forall_impl; [|exact F0]. intros t Ht. cbv beta in Ht. auto.
  - repeat constructor; cbn [fst col_name col]; auto.
Qed.

Lemma init_db_initialised s log :
  initialised s ->
  init_db (s, log) = (Return tt, (s, log ++ already_applied)).
Proof.
  intros [Ht Hc]. unfold init_db, create_statements.
  rewrite (execute_all_noop _ _ Ht).
  unfold _run_migrations, already_applied, migrations in *.
  repeat match goal with
         | H : Forall _ (_ :: _) |- _ => inversion H; subst; clear H
         end.
  cbn [fst] in *. cbn [run_loop map snd].
  repeat (rewrite run_one_duplicate by assumption; cbn [run_loop]).
  now rewrite <- !app_assoc.
Qed.

(** Without the tables, every migration fails with "no such table": each
    failure is logged as a warning and the loop goes on to the end. *)
Lemma migrations_without_tables :
  _run_migrations ([], [])
  = (Return tt,
     ([], [ mkLog WARNING "Migration failed: shopping_items completed column - no such table: shopping_items";
            mkLog WARNING "Migration failed: shopping_items completed_by column - no such table: shopping_items";
            mkLog WARNING "Migration failed: shopping_items completed_at column - no such table: shopping_items";
            mkLog WARNING "Migration failed: users supabase_id column - no such table: users" ])).
Proof. reflexivity. Qed.

(** C5. Initialising twice in a row raises no error and the second run
    leaves the schema as the first one made it, every migration being
    reported as already applied.  In the migration loop a failure is never
    let out: one of the "duplicate column name" / "already exists" class
    counts as applied (debug record), any other is logged as a warning, and
    the loop carries on with the next migration. *)
Theorem init_db_twice (s : Schema) (log : Log) :
  exists s1 log1,
    init_db (s, log) = (Return tt, (s1, log1)) /\
    init_db (s1, log1) = (Return tt, (s1, log1 ++ already_applied)) /\
    (forall ms st, exists st', run_loop ms st = (Return tt, st')) /\
    (forall migration description rest conn l msg,
        execute migration conn = Raise (OperationalError msg) ->
        run_loop ((migration, description) :: rest) (conn, l)
        = run_loop rest
            (conn, l ++
               [if duplicate_class msg
                then mkLog DEBUG ("Migration already applied: " ++ description)%string
                else mkLog WARNING
                       ("Migration failed: " ++ description ++ " - " ++ msg)%string])).
Proof.
  destruct (init_db_establishes s log) as [s1 [log1 [E1 I1]]].
  exists s1, log1. split; [exact E1|]. split; [now apply init_db_initialised|].
  split; [apply run_loop_total|].
  intros migration description rest conn l msg H.
  cbn [run_loop]. now rewrite (run_one_failure _ description _ l _ H).
Qed.

End SchemaFacts.

(** ** Reconciliation *)

Module ModelsFacts.
Import Py PyStr PyStrFacts Config ConfigFacts Supabase Models.

(** The values the call derives from the identity, lines 164-172. *)
Definition meta_of (su : SupabaseUser) : list (string * string) :=
  match su_user_metadata su with Some m => m | None => [] end.

Definition local_part (su : SupabaseUser) : string :=
  hd EmptyString (split "@" (su_email su)).

Definition full_name_of (su : SupabaseUser) : string :=
  dict_get_default "full_name" (meta_of su)
    (dict_get_default "name" (meta_of su) (local_part su)).

Definition username_of (su : SupabaseUser) : string :=
  dict_get_default "username" (meta_of su) (local_part su).

Definition is_admin_of (su : SupabaseUser) (ac : AccessControl) : bool :=
  py_in (lower (su_email su)) (admin_emails ac).

Definition values_of (su : SupabaseUser) (ac : AccessControl) (t : Timestamp) : Values :=
  mkValues (username_of su) (su_email su) (full_name_of su) (su_id su)
           (is_admin_of su ac) t (S t).

(** *** The store *)

Lemma find_map {A} (p : A -> bool) (f : A -> A) (l : list A) :
  (forall r, p (f r) = p r) ->
  find p (map f l) = option_map f (find p l).
Proof.
  intros Hp. induction l as [|r l IH]; simpl; [reflexivity|].
  rewrite Hp. destruct (p r); [reflexivity|exact IH].
Qed.

Lemma id_set_supabase_id sid r : id (set_supabase_id sid r) = id r.
Proof. reflexivity. Qed.

Lemma id_set_login t n a r : id (set_login t n a r) = id r.
Proof. reflexivity. Qed.

(** An [UPDATE ... WHERE id = ?] that keeps ids keeps the lookup by id. *)
Lemma find_by_id_update j i f s :
  (forall r, id (f r) = id r) ->
  find_by_id j (update_where_id i f s)
  = option_map (fun r => if Z.eqb (id r) i then f r else r) (find_by_id j s).
Proof.
  intros Hf. unfold find_by_id, update_where_id. apply find_map.
  intros r. destruct (Z.eqb (id r) i); [now rewrite Hf|reflexivity].
Qed.

(** The login update leaves the external reference of every row alone. *)
Lemma find_by_supabase_id_set_login sid i t n a s :
  find_by_supabase_id sid (update_where_id i (set_login t n a) s)
  = option_map (fun r => if Z.eqb (id r) i then set_login t n a r else r)
               (find_by_supabase_id sid s).
Proof.
  unfold find_by_supabase_id, update_where_id. apply find_map.
  intros r. now destruct (Z.eqb (id r) i).
Qed.

Lemma find_by_email_id e s u :
  find_by_email e s = Some u ->
  exists u0, find_by_id (id u) s = Some u0 /\ id u0 = id u.
Proof.
  intros H. apply find_some in H as [Hin _].
  destruct (find_by_id (id u) s) as [u0|] eqn:E.
  - exists u0. split; [reflexivity|].
    apply find_some in E as [_ E]. now apply Z.eqb_eq in E.
  - exfalso. unfold find_by_id in E.
    pose proof (find_none _ _ E u Hin) as K. cbv beta in K.
    now rewrite Z.eqb_refl in K.
Qed.

Lemma find_none_existsb {A} (p : A -> bool) l :
  find p l = None -> existsb p l = false.
Proof.
  induction l as [|r l IH]; simpl; [reflexivity|].
  destruct (p r); [discriminate|exact IH].
Qed.

Lemma find_some_existsb {A} (p : A -> bool) l r :
  find p l = Some r -> existsb p l = true.
Proof.
  induction l as [|x l IH]; simpl; [discriminate|].
  destruct (p x); [reflexivity|exact IH].
Qed.

(** An external id that no row holds cannot clash. *)
Lemma supabase_id_free sid i s :
  find_by_supabase_id sid s = None -> supabase_id_taken sid i s = false.
Proof.
  unfold find_by_supabase_id, supabase_id_taken.
  induction s as [|r s IH]; simpl; [reflexivity|].
  destruct (opt_eqb (supabase_id r) sid); [discriminate|].
  intros H. rewrite andb_false_r. now apply IH.
Qed.

(** *** The three paths of the call *)

(** Found by the primary lookup. *)
Lemma call_primary su ac w u :
  find_by_supabase_id (su_id su) (file w) = Some u ->
  get_or_create_supabase_user su ac w
  = (Return (Some u),
     mkWorld (update_where_id (id u)
                (set_login (clock w) (full_name_of su) (is_admin_of su ac))
                (file w))
             None (open_conns w)
             (executed w ++ [SelectBySupabaseId (su_id su);
                             UpdateLogin (clock w) (full_name_of su)
                                         (is_admin_of su ac) (id u);
                             Commit; Close])
             (S (clock w)) (rivals w) (supabase_id_unique w)).
Proof.
  intros H.
  unfold get_or_create_supabase_user, bind, get_connection,
    select_by_supabase_id, ret, now, update_login, commit, close, traced,
    set_pending, view; simpl.
  rewrite H; simpl. rewrite <- !app_assoc. reflexivity.
Qed.

(** Found by the e-mail fallback; [u0] is the row holding the id of [u]
    (the same row, ids being a primary key). *)
Lemma call_fallback su ac w u u0 :
  find_by_supabase_id (su_id su) (file w) = None ->
  find_by_email (su_email su) (file w) = Some u ->
  find_by_id (id u) (file w) = Some u0 ->
  get_or_create_supabase_user su ac w
  = (Return (Some (set_supabase_id (su_id su) u0)),
     mkWorld (update_where_id (id u)
                (set_login (clock w) (full_name_of su) (is_admin_of su ac))
                (update_where_id (id u) (set_supabase_id (su_id su)) (file w)))
             None (open_conns w)
             (executed w ++ [SelectBySupabaseId (su_id su);
                             SelectByEmail (su_email su);
                             UpdateSupabaseId (su_id su) (id u);
                             Commit;
                             SelectById (id u);
                             UpdateLogin (clock w) (full_name_of su)
                                         (is_admin_of su ac) (id u);
                             Commit; Close])
             (S (clock w)) (rivals w) (supabase_id_unique w)).
Proof.
  intros H1 H2 H3.
  assert (Hid : id u0 = id u)
    by (apply find_some in H3 as [_ E]; now apply Z.eqb_eq in E).
  unfold get_or_create_supabase_user, bind, get_connection,
    select_by_supabase_id, select_by_email, select_by_id, update_supabase_id,
    ret, now, update_login, commit, close, traced, set_pending, view; simpl.
  rewrite H1; simpl. rewrite H2; simpl. rewrite H3.
  rewrite (supabase_id_free _ _ _ H1), andb_false_r; simpl.
  rewrite (find_by_id_update _ _ _ _ (id_set_supabase_id (su_id su))).
  rewrite H3; simpl. rewrite Hid, Z.eqb_refl; simpl. rewrite Hid.
  rewrite <- !app_assoc. reflexivity.
Qed.

(** Found by neither lookup: the [INSERT] runs against the table as other
    connections have left it; if it succeeds, [conn.lastrowid] raises. *)
Lemma call_create su ac w :
  find_by_supabase_id (su_id su) (file w) = None ->
  find_by_email (su_email su) (file w) = None ->
  let v := values_of su ac (clock w) in
  let s' := commit_rivals (supabase_id_unique w) (rivals w) (file w) in
  let trace := executed w ++ [SelectBySupabaseId (su_id su);
                              SelectByEmail (su_email su);
                              InsertUser v] in
  get_or_create_supabase_user su ac w
  = match insert_into (supabase_id_unique w) v s' with
    | Raise e =>
        (Raise e,
         mkWorld s' None (S (open_conns w)) trace (S (S (clock w))) []
                 (supabase_id_unique w))
    | Return s'' =>
        (Raise (AttributeError
                  "'sqlite3.Connection' object has no attribute 'lastrowid'"),
         mkWorld s' (Some s'') (S (open_conns w)) trace (S (S (clock w))) []
                 (supabase_id_unique w))
    end.
Proof.
  intros H1 H2 v s' trace. subst v s' trace.
  unfold get_or_create_supabase_user, bind, get_connection,
    select_by_supabase_id, select_by_email, ret, now, insert_user,
    admit_rivals, conn_lastrowid, raise, traced, set_pending, view; simpl.
  rewrite H1; simpl. rewrite H2; simpl.
  fold (local_part su). fold (meta_of su).
  fold (full_name_of su). fold (username_of su). fold (is_admin_of su ac).
  fold (values_of su ac (clock w)).
  destruct (insert_into (supabase_id_unique w) (values_of su ac (clock w))
              (commit_rivals (supabase_id_unique w) (rivals w) (file w)));
    simpl; rewrite <- !app_assoc; reflexivity.
Qed.

(** *** Linking an identity to a row *)

(** The primary lookup for [sid] finds a row with id [i]. *)
Definition linked (sid : string) (i : Z) (s : Store) : Prop :=
  exists x, find_by_supabase_id sid s = Some x /\ id x = i.

Lemma linked_set_login sid i j t n a s :
  linked sid i s -> linked sid i (update_where_id j (set_login t n a) s).
Proof.
  intros [x [Hx Hi]]. unfold linked.
  rewrite find_by_supabase_id_set_login, Hx. simpl.
  eexists; split; [reflexivity|]. now destruct (Z.eqb (id x) j).
Qed.

(** The backfill links the identity to the row that was matched. *)
Lemma backfill_links sid i s u0 :
  find_by_supabase_id sid s = None ->
  find_by_id i s = Some u0 ->
  linked sid i (update_where_id i (set_supabase_id sid) s).
Proof.
  unfold linked, find_by_supabase_id, find_by_id, update_where_id.
  induction s as [|r s IH]; simpl; [discriminate|].
  destruct (opt_eqb (supabase_id r) sid) eqn:Er; [discriminate|].
  destruct (Z.eqb (id r) i) eqn:Ei; simpl.
  - intros _ _. rewrite String.eqb_refl.
    eexists; split; [reflexivity|]. simpl. now apply Z.eqb_eq.
  - rewrite Er. exact IH.
Qed.

Lemma update_where_id_length i f s :
  List.length (update_where_id i f s) = List.length s.
Proof. apply List.length_map. Qed.

Lemma update_where_id_ids i f s :
  (forall r, id (f r) = id r) ->
  map id (update_where_id i f s) = map id s.
Proof.
  intros Hf. unfold update_where_id. rewrite map_map. apply map_ext.
  intros r. destruct (Z.eqb (id r) i); [apply Hf|reflexivity].
Qed.

(** A call for an identity that is linked takes the primary path and keeps
    the link. *)
Lemma call_linked su ac w i :
  linked (su_id su) i (file w) ->
  exists x,
    id x = i /\
    get_or_create_supabase_user su ac w
    = (Return (Some x),
       mkWorld (update_where_id i
                  (set_login (clock w) (full_name_of su) (is_admin_of su ac))
                  (file w))
               None (open_conns w)
               (executed w ++ [SelectBySupabaseId (su_id su);
                               UpdateLogin (clock w) (full_name_of su)
                                           (is_admin_of su ac) i;
                               Commit; Close])
               (S (clock w)) (rivals w) (supabase_id_unique w)).
Proof.
  intros [x [Hx Hi]]. exists x. split; [assumption|].
  rewrite (call_primary su ac w x Hx). now rewrite Hi.
Qed.

(** [n] calls in a row for the same identity: the world they leave. *)
Fixpoint after_calls (n : nat) (su : SupabaseUser) (ac : AccessControl)
    (w : World) : World :=
  match n with
  | O => w
  | S k => snd (get_or_create_supabase_user su ac (after_calls k su ac w))
  end.

Lemma after_calls_linked n su ac w i :
  linked (su_id su) i (file w) ->
  linked (su_id su) i (file (after_calls n su ac w)) /\
  List.length (file (after_calls n su ac w)) = List.length (file w).
Proof.
  intros H. induction n as [|n [IH1 IH2]]; simpl; [auto|].
  destruct (call_linked su ac _ i IH1) as [x [_ ->]]. simpl.
  split; [now apply linked_set_login|].
  now rewrite update_where_id_length.
Qed.

(** *** Two calls in a row *)

(** An identity the store knows, by either lookup, is resolved to the same
    local id by two calls in a row, and the number of rows stays. *)
Lemma reconcile_twice_known su ac w u :
  find_by_supabase_id (su_id su) (file w) = Some u \/
  (find_by_supabase_id (su_id su) (file w) = None /\
   find_by_email (su_email su) (file w) = Some u) ->
  exists x1 x2 w1 w2,
    get_or_create_supabase_user su ac w = (Return (Some x1), w1) /\
    get_or_create_supabase_user su ac w1 = (Return (Some x2), w2) /\
    id x1 = id u /\ id x2 = id u /\
    List.length (file w1) = List.length (file w) /\
    List.length (file w2) = List.length (file w).
Proof.
  intros [H|[H1 H2]].
  - rewrite (call_primary su ac w u H).
    assert (L : linked (su_id su) (id u)
                  (update_where_id (id u)
                     (set_login (clock w) (full_name_of su) (is_admin_of su ac))
                     (file w)))
      by (apply linked_set_login; now exists u).
    match goal with |- context [(Return (Some u), ?W)] => set (w1 := W) end.
    destruct (call_linked su ac w1 (id u) L) as [x2 [Hx2 E2]].
    do 4 eexists. split; [reflexivity|]. split; [exact E2|].
    simpl. rewrite !update_where_id_length. auto.
  - destruct (find_by_email_id _ _ _ H2) as [u0 [H3 Hid]].
    rewrite (call_fallback su ac w u u0 H1 H2 H3).
    assert (L : linked (su_id su) (id u)
                  (update_where_id (id u)
                     (set_login (clock w) (full_name_of su) (is_admin_of su ac))
                     (update_where_id (id u) (set_supabase_id (su_id su)) (file w))))
      by (apply linked_set_login; now apply (backfill_links _ _ _ u0)).
    match goal with |- context [(Return (Some ?X), ?W)] => set (w1 := W) end.
    destruct (call_linked su ac w1 (id u) L) as [x2 [Hx2 E2]].
    do 4 eexists. split; [reflexivity|]. split; [exact E2|].
    simpl. rewrite !update_where_id_length. auto.
Qed.

(** An identity the store does not know never gets a record back: the
    create path ends in an exception, and nothing is committed by the
    call. *)
Lemma create_path_raises su ac w :
  find_by_supabase_id (su_id su) (file w) = None ->
  find_by_email (su_email su) (file w) = None ->
  exists e w',
    get_or_create_supabase_user su ac w = (Raise e, w') /\
    file w' = commit_rivals (supabase_id_unique w) (rivals w) (file w).
Proof.
  intros H1 H2. rewrite (call_create su ac w H1 H2).
  destruct (insert_into _ _ _); eauto.
Qed.

Definition ann : SupabaseUser := mkSupabaseUser "sb-1" "ann@x.com" None.

Definition open_policy : AccessControl := load_access_control [].

Definition no_lastrowid : Exn :=
  AttributeError "'sqlite3.Connection' object has no attribute 'lastrowid'".

(** C2. Reconciling a new identity twice in a row against an empty table:
    both calls end in the [AttributeError] of [conn.lastrowid], neither
    returns a record, and no row is ever committed. *)
Theorem first_login_raises_twice :
  let w0 := at_rest [] 0 in
  let r1 := get_or_create_supabase_user ann open_policy w0 in
  let r2 := get_or_create_supabase_user ann open_policy (snd r1) in
  fst r1 = Raise no_lastrowid /\ fst r2 = Raise no_lastrowid /\
  file (snd r1) = [] /\ file (snd r2) = [].
Proof. repeat split. Qed.

(** *** The admin flag *)

(** An e-mail listed in a loaded policy gives [is_admin = True]. *)
Lemma listed_admin_is_admin env su :
  In (su_email su) (admin_emails (load_access_control env)) ->
  is_admin_of su (load_access_control env) = true.
Proof.
  intros H. unfold is_admin_of. apply py_in_In.
  destruct (load_access_control_normalized env) as [_ Had].
  unfold normalized in Had. rewrite Forall_forall in Had.
  now rewrite (Had _ H).
Qed.

(** On the update path the stored flag of the matched row becomes the one
    computed from the policy, while the record handed back is the row as it
    was read before the [UPDATE]. *)
Lemma update_path_stored_and_returned su ac w u :
  find_by_supabase_id (su_id su) (file w) = Some u ->
  let r := get_or_create_supabase_user su ac w in
  fst r = Return (Some u) /\
  option_map is_admin (find_by_supabase_id (su_id su) (file (snd r)))
  = Some (is_admin_of su ac).
Proof.
  intros H r. subst r. rewrite (call_primary su ac w u H). simpl.
  split; [reflexivity|].
  rewrite find_by_supabase_id_set_login, H. simpl.
  now rewrite Z.eqb_refl.
Qed.

Definition bob : SupabaseUser := mkSupabaseUser "sb-2" "b@x.com" None.

Definition bob_row : Row :=
  mkRow 1 (Some "b") "b@x.com" (Some "b") false (Some "sb-2") (Some 3)
        (Some 3) None.

Definition admins_policy : AccessControl :=
  load_access_control [("ALLOWED_EMAILS", "a@x.com"); ("ADMIN_EMAILS", "b@x.com")].

(** C4. [b@x.com] is an admin of the policy and has a row with
    [is_admin = false]: the call stores [is_admin = true] in the row, and
    the record it returns still says [is_admin = false]. *)
Theorem reconcile_returns_stale_admin :
  let r := get_or_create_supabase_user bob admins_policy (at_rest [bob_row] 9) in
  In (su_email bob) (admin_emails admins_policy) /\
  fst r = Return (Some bob_row) /\
  is_admin bob_row = false /\
  option_map is_admin (find_by_id 1 (file (snd r))) = Some true.
Proof.
  cbv zeta. split; [left; reflexivity|].
  split; [reflexivity|]. split; reflexivity.
Qed.

(** *** The e-mail fallback *)

(** C6. A row matched by the asserted e-mail that holds no external
    reference, for an identity the primary lookup does not know: the call
    backfills the reference of that row with one [UPDATE], creates no row,
    and returns the row's id; every later call for the same identity finds
    the row by the primary lookup alone, with neither the e-mail lookup nor
    another backfill. *)
Theorem backfill_once su ac w u :
  find_by_supabase_id (su_id su) (file w) = None ->
  find_by_email (su_email su) (file w) = Some u ->
  supabase_id u = None ->
  let r := get_or_create_supabase_user su ac w in
  let name := full_name_of su in
  let admin := is_admin_of su ac in
  (exists x, fst r = Return (Some x) /\ id x = id u
             /\ supabase_id x = Some (su_id su)) /\
  In (set_login (clock w) name admin (set_supabase_id (su_id su) u))
     (file (snd r)) /\
  List.length (file (snd r)) = List.length (file w) /\
  executed (snd r)
  = executed w ++ [SelectBySupabaseId (su_id su);
                   SelectByEmail (su_email su);
                   UpdateSupabaseId (su_id su) (id u);
                   Commit;
                   SelectById (id u);
                   UpdateLogin (clock w) name admin (id u);
                   Commit; Close] /\
  forall n,
    let wn := after_calls n su ac (snd r) in
    let rn := get_or_create_supabase_user su ac wn in
    (exists x, fst rn = Return (Some x) /\ id x = id u) /\
    executed (snd rn)
    = executed wn ++ [SelectBySupabaseId (su_id su);
                      UpdateLogin (clock wn) name admin (id u);
                      Commit; Close] /\
    List.length (file (snd rn)) = List.length (file w).
Proof.
  intros H1 H2 _ r name admin. subst r name admin.
  destruct (find_by_email_id _ _ _ H2) as [u0 [H3 Hid]].
  rewrite (call_fallback su ac w u u0 H1 H2 H3). cbn [fst snd file executed].
  split; [exists (set_supabase_id (su_id su) u0); auto|].
  split.
  { apply find_some in H2 as [Hin _].
    unfold update_where_id. rewrite map_map.
    apply in_map_iff. exists u. split; [|assumption].
    rewrite Z.eqb_refl. simpl. now rewrite Z.eqb_refl. }
  split; [now rewrite !update_where_id_length|].
  split; [reflexivity|].
  intros n. cbv zeta.
  match goal with
  | |- context [after_calls n su ac ?W] => set (w1 := W)
  end.
  assert (L : linked (su_id su) (id u) (file w1))
    by (apply linked_set_login; now apply (backfill_links _ _ _ u0)).
  destruct (after_calls_linked n su ac w1 (id u) L) as [Ln Len].
  destruct (call_linked su ac (after_calls n su ac w1) (id u) Ln)
    as [x [Hx E]].
  rewrite E. cbn [fst snd file executed].
  split; [now exists x|]. split; [reflexivity|].
  rewrite update_where_id_length, Len. subst w1. cbn [file].
  now rewrite !update_where_id_length.
Qed.

Definition carol : SupabaseUser :=
  mkSupabaseUser "sb-3" "carol@x.com" (Some [("full_name", "Carol C")]).

(** A row from before the external references existed. *)
Definition legacy_row : Row :=
  mkRow 4 (Some "carol") "carol@x.com" (Some "Carol") false None None
        (Some 2) None.

Lemma backfill_once_witness :
  find_by_supabase_id (su_id carol) (file (at_rest [legacy_row] 10)) = None /\
  find_by_email (su_email carol) (file (at_rest [legacy_row] 10))
    = Some legacy_row /\
  supabase_id legacy_row = None /\
  executed (snd (get_or_create_supabase_user carol open_policy
                   (at_rest [legacy_row] 10)))
  = [SelectBySupabaseId "sb-3"; SelectByEmail "carol@x.com";
     UpdateSupabaseId "sb-3" 4; Commit; SelectById 4;
     UpdateLogin 10 "Carol C" false 4; Commit; Close].
Proof.
  split; [reflexivity|]. split; [reflexivity|]. split; [reflexivity|].
  exact (proj1 (proj2 (proj2 (proj2
           (backfill_once carol open_policy (at_rest [legacy_row] 10)
              legacy_row eq_refl eq_refl eq_refl))))).
Defined.

(** *** What a call leaves untouched *)

(** The columns no path of the call writes. *)
Definition frame (r r' : Row) : Prop :=
  id r' = id r /\ email r' = email r /\ username r' = username r /\
  created_at r' = created_at r /\ last_activity r' = last_activity r.

(** The effect of the update path on a row, [i] being the matched id:
    other rows stay as they are, and the external reference changes on the
    fallback path only. *)
Definition update_effect (i : Z) (backfill : bool) (r r' : Row) : Prop :=
  frame r r' /\
  (id r <> i -> r' = r) /\
  (backfill = false -> supabase_id r' = supabase_id r).

Lemma frame_refl r : frame r r.
Proof. repeat split. Qed.

Lemma Forall2_map_r {A} (R : A -> A -> Prop) (f : A -> A) (l : list A) :
  (forall r, R r (f r)) -> Forall2 R l (map f l).
Proof. intros H. induction l; simpl; constructor; auto. Qed.

Lemma Forall2_frame_refl s : Forall2 frame s s.
Proof. induction s; constructor; auto using frame_refl. Qed.

(** Rival inserts only append. *)
Lemma commit_rivals_appends q vs s :
  exists added, commit_rivals q vs s = s ++ added.
Proof.
  revert s. induction vs as [|v vs IH]; intros s; simpl.
  - exists []. now rewrite app_nil_r.
  - unfold insert_into.
    destruct (q && existsb _ s); [apply IH|].
    destruct (email_taken (v_email v) s); [apply IH|].
    destruct (IH (s ++ [new_row (next_id s) v])) as [added ->].
    exists (new_row (next_id s) v :: added). now rewrite <- app_assoc.
Qed.

Lemma login_update_effect i t n a s :
  Forall2 (update_effect i false) s (update_where_id i (set_login t n a) s).
Proof.
  apply Forall2_map_r. intros r. destruct (Z.eqb (id r) i) eqn:E.
  - repeat split. intros K. apply Z.eqb_eq in E. contradiction.
  - repeat split.
Qed.

Lemma backfill_update_effect i sid t n a s :
  Forall2 (update_effect i true) s
    (update_where_id i (set_login t n a)
       (update_where_id i (set_supabase_id sid) s)).
Proof.
  unfold update_where_id. rewrite map_map.
  apply Forall2_map_r. intros r. destruct (Z.eqb (id r) i) eqn:E; simpl.
  - rewrite E. repeat split; try discriminate.
    intros K. apply Z.eqb_eq in E. contradiction.
  - rewrite E. repeat split.
Qed.

Lemma update_effect_frame i b s s' :
  Forall2 (update_effect i b) s s' -> Forall2 frame s s'.
Proof. induction 1; constructor; auto. now destruct H. Qed.

(** C9. On the update path every row keeps its id, e-mail, username,
    creation time and last activity; rows other than the matched one are
    untouched, and the external reference is written on the e-mail fallback
    only.  On every path each row that was there is still there: the table
    after the call is the rows of before, frame kept, followed by whatever
    was inserted. *)
Theorem reconcile_frame su ac w :
  let w' := snd (get_or_create_supabase_user su ac w) in
  (exists kept added,
      file w' = kept ++ added /\ Forall2 frame (file w) kept) /\
  (forall u, find_by_supabase_id (su_id su) (file w) = Some u ->
             Forall2 (update_effect (id u) false) (file w) (file w')) /\
  (forall u, find_by_supabase_id (su_id su) (file w) = None ->
             find_by_email (su_email su) (file w) = Some u ->
             Forall2 (update_effect (id u) true) (file w) (file w')).
Proof.
  cbv zeta.
  assert (P1 : forall u, find_by_supabase_id (su_id su) (file w) = Some u ->
             Forall2 (update_effect (id u) false) (file w)
               (file (snd (get_or_create_supabase_user su ac w)))).
  { intros u H. rewrite (call_primary su ac w u H). apply login_update_effect. }
  assert (P2 : forall u, find_by_supabase_id (su_id su) (file w) = None ->
             find_by_email (su_email su) (file w) = Some u ->
             Forall2 (update_effect (id u) true) (file w)
               (file (snd (get_or_create_supabase_user su ac w)))).
  { intros u H1 H2. destruct (find_by_email_id _ _ _ H2) as [u0 [H3 _]].
    rewrite (call_fallback su ac w u u0 H1 H2 H3).
    apply backfill_update_effect. }
  split; [|split; assumption].
  destruct (find_by_supabase_id (su_id su) (file w)) as [u|] eqn:H1.
  - exists (file (snd (get_or_create_supabase_user su ac w))), [].
    split; [now rewrite app_nil_r|].
    eapply update_effect_frame, P1; reflexivity.
  - destruct (find_by_email (su_email su) (file w)) as [u|] eqn:H2.
    + exists (file (snd (get_or_create_supabase_user su ac w))), [].
      split; [now rewrite app_nil_r|].
      eapply update_effect_frame, P2; reflexivity.
    + destruct (create_path_raises su ac w H1 H2) as [e [w' [E F]]].
      rewrite E. cbn [snd]. rewrite F.
      destruct (commit_rivals_appends (supabase_id_unique w) (rivals w) (file w))
        as [added ->].
      exists (file w), added. split; [reflexivity|apply Forall2_frame_refl].
Qed.

(** *** The connection *)

(** C8 (as the code has it). The call closes the connection it opened
    exactly when it returns: there is no [try]/[finally], so on every path
    on which an exception propagates the connection stays open. *)
Theorem connection_closed_iff_returns su ac w :
  let r := get_or_create_supabase_user su ac w in
  match fst r with
  | Return _ => open_conns (snd r) = open_conns w
  | Raise _ => open_conns (snd r) = S (open_conns w)
  end.
Proof.
  cbv zeta.
  destruct (find_by_supabase_id (su_id su) (file w)) as [u|] eqn:H1.
  - now rewrite (call_primary su ac w u H1).
  - destruct (find_by_email (su_email su) (file w)) as [u|] eqn:H2.
    + destruct (find_by_email_id _ _ _ H2) as [u0 [H3 _]].
      now rewrite (call_fallback su ac w u u0 H1 H2 H3).
    + rewrite (call_create su ac w H1 H2).
      now destruct (insert_into _ _ _).
Qed.

(** Another first login for the same e-mail commits its row while this
    call is between its lookups and its [INSERT]. *)
Definition race_world : World :=
  mkWorld [] None 0 [] 0
          [mkValues "ann" "ann@x.com" "ann" "sb-1" false 0 0] true.

Definition email_clash : Exn :=
  IntegrityError "UNIQUE constraint failed: users.email".

Definition supabase_id_clash : Exn :=
  IntegrityError "UNIQUE constraint failed: users.supabase_id".

(** C8, counterexample. Two calls after which the connection is still
    open: the [INSERT] raises against the row a rival has committed, and,
    with no rival at all, [conn.lastrowid] raises after the [INSERT]. *)
Lemma connection_left_open_on_error :
  let r := get_or_create_supabase_user ann open_policy race_world in
  let r' := get_or_create_supabase_user ann open_policy (at_rest [] 0) in
  fst r = Raise supabase_id_clash /\
  open_conns (snd r) <> open_conns race_world /\
  fst r' = Raise no_lastrowid /\
  open_conns (snd r') <> open_conns (at_rest [] 0).
Proof.
  cbv zeta. split; [reflexivity|]. split; [discriminate|].
  split; [reflexivity|discriminate].
Qed.

(** *** A uniqueness violation on the create path *)

Definition rows_with_email (e : string) (s : Store) : list Row :=
  filter (fun r => String.eqb (email r) e) s.

Lemma email_taken_In e s : email_taken e s = true <-> In e (map email s).
Proof.
  unfold email_taken. rewrite existsb_exists, in_map_iff. split.
  - intros [r [Hr E]]. apply String.eqb_eq in E. eauto.
  - intros [r [E Hr]]. exists r. split; [assumption|]. now apply String.eqb_eq.
Qed.

Lemma NoDup_snoc {A} (l : list A) (a : A) :
  NoDup l -> ~ In a l -> NoDup (l ++ [a]).
Proof.
  induction 1 as [|x l Hx Hl IH]; simpl; intros Ha.
  - constructor; [tauto|constructor].
  - constructor.
    + rewrite in_app_iff. simpl. intros [K|[K|[]]]; [tauto|]. subst. tauto.
    + apply IH. tauto.
Qed.

(** [email TEXT UNIQUE] holds after every insert. *)
Lemma insert_into_unique q v s s' :
  insert_into q v s = Return s' ->
  NoDup (map email s) -> NoDup (map email s').
Proof.
  unfold insert_into.
  destruct (q && existsb _ s); [discriminate|].
  destruct (email_taken (v_email v) s) eqn:E; [discriminate|].
  intros [= <-] H. rewrite map_app. simpl. apply NoDup_snoc; [assumption|].
  intros K. apply email_taken_In in K. congruence.
Qed.

Lemma commit_rivals_unique q vs s :
  NoDup (map email s) -> NoDup (map email (commit_rivals q vs s)).
Proof.
  revert s. induction vs as [|v vs IH]; intros s H; simpl; [assumption|].
  destruct (insert_into q v s) as [s'|e] eqn:E; apply IH; [|assumption].
  now apply (insert_into_unique q v s).
Qed.

Lemma rows_with_email_absent e s :
  ~ In e (map email s) -> rows_with_email e s = [].
Proof.
  induction s as [|r s IH]; simpl; [reflexivity|]. intros H.
  destruct (String.eqb (email r) e) eqn:E.
  - apply String.eqb_eq in E. tauto.
  - apply IH. tauto.
Qed.

Lemma unique_email_at_most_one e s :
  NoDup (map email s) -> (List.length (rows_with_email e s) <= 1)%nat.
Proof.
  induction s as [|r s IH]; simpl; [lia|]. intros H.
  inversion H as [|x l Hx Hl]; subst.
  destruct (String.eqb (email r) e) eqn:E.
  - apply String.eqb_eq in E. subst e.
    simpl. now rewrite (rows_with_email_absent _ _ Hx).
  - now apply IH.
Qed.

Lemma found_email_at_least_one e s :
  find_by_email e s <> None -> (1 <= List.length (rows_with_email e s))%nat.
Proof.
  unfold find_by_email, rows_with_email.
  induction s as [|r s IH]; simpl; [congruence|].
  destruct (String.eqb (email r) e); simpl; [lia|exact IH].
Qed.

(** A value already held in a [UNIQUE] column makes the [INSERT] fail with
    an integrity error. *)
Lemma insert_into_clash q v s :
  find_by_email (v_email v) s <> None \/
  (q = true /\ find_by_supabase_id (v_supabase_id v) s <> None) ->
  exists msg, insert_into q v s = Raise (IntegrityError msg).
Proof.
  intros H. unfold insert_into.
  destruct (q && existsb _ s) eqn:Q; [eauto|].
  destruct (email_taken (v_email v) s) eqn:E; [eauto|].
  exfalso. destruct H as [H|[-> H]].
  - apply H. unfold find_by_email.
    destruct (find _ s) as [r|] eqn:F; [|reflexivity].
    apply find_some_existsb in F. unfold email_taken in E. congruence.
  - apply H. unfold find_by_supabase_id.
    destruct (find _ s) as [r|] eqn:F; [|reflexivity].
    apply find_some_existsb in F. rewrite F in Q. discriminate.
Qed.

(** C3 (as the code has it). When the [INSERT] of the create path violates
    a uniqueness constraint of the table, because a concurrent registration
    has committed a row with the same e-mail, or with the same external id
    where that column is unique, the [sqlite3.IntegrityError] propagates to
    the caller: nothing is read again and no record is returned.  The
    failed insert adds no row, so the table is the one the other
    connections left, with at most one row for the e-mail, and exactly one
    when the clash is on the e-mail. *)
Theorem insert_conflict_propagates su ac w :
  NoDup (map email (file w)) ->
  find_by_supabase_id (su_id su) (file w) = None ->
  find_by_email (su_email su) (file w) = None ->
  let s' := commit_rivals (supabase_id_unique w) (rivals w) (file w) in
  find_by_email (su_email su) s' <> None \/
  (supabase_id_unique w = true /\
   find_by_supabase_id (su_id su) s' <> None) ->
  let r := get_or_create_supabase_user su ac w in
  (exists msg, fst r = Raise (IntegrityError msg)) /\
  executed (snd r)
  = executed w ++ [SelectBySupabaseId (su_id su);
                   SelectByEmail (su_email su);
                   InsertUser (values_of su ac (clock w))] /\
  file (snd r) = s' /\ pending (snd r) = None /\
  (List.length (rows_with_email (su_email su) (file (snd r))) <= 1)%nat /\
  (find_by_email (su_email su) s' <> None ->
   List.length (rows_with_email (su_email su) (file (snd r))) = 1%nat).
Proof.
  intros Hu H1 H2 s' Hc r. subst r.
  rewrite (call_create su ac w H1 H2). fold s'.
  destruct (insert_into_clash (supabase_id_unique w)
              (values_of su ac (clock w)) s' Hc) as [msg ->].
  cbn [fst snd executed file pending].
  pose proof (unique_email_at_most_one (su_email su) s'
                (commit_rivals_unique _ _ _ Hu)) as L.
  split; [eauto|]. split; [reflexivity|]. split; [reflexivity|].
  split; [reflexivity|]. split; [assumption|].
  intros K. apply found_email_at_least_one in K. lia.
Qed.

(** The same race on a table that got [supabase_id] from the migration. *)
Definition race_world_migrated : World :=
  mkWorld [] None 0 [] 0
          [mkValues "ann" "ann@x.com" "ann" "sb-1" false 0 0] false.

Lemma insert_conflict_propagates_witness :
  NoDup (map email (file race_world_migrated)) /\
  find_by_supabase_id (su_id ann) (file race_world_migrated) = None /\
  find_by_email (su_email ann) (file race_world_migrated) = None /\
  (exists msg,
      fst (get_or_create_supabase_user ann open_policy race_world_migrated)
      = Raise (IntegrityError msg)).
Proof.
  split; [constructor|]. split; [reflexivity|]. split; [reflexivity|].
  refine (proj1 (insert_conflict_propagates ann open_policy
                   race_world_migrated (NoDup_nil _) eq_refl eq_refl _)).
  left. discriminate.
Defined.

(** C3, counterexample. After the race a row for the e-mail exists, and the
    call does not return it (nor any record): it raises, with the message
    of the [supabase_id] index on a table made by [init_db] and with the
    one of the [email] index on a migrated table. *)
Lemma insert_conflict_not_recovered :
  let r := get_or_create_supabase_user ann open_policy race_world in
  let r' := get_or_create_supabase_user ann open_policy race_world_migrated in
  find_by_email (su_email ann) (file (snd r)) <> None /\
  fst r = Raise supabase_id_clash /\
  ~ (exists x, fst r = Return x) /\
  find_by_email (su_email ann) (file (snd r')) <> None /\
  fst r' = Raise email_clash /\
  ~ (exists x, fst r' = Return x).
Proof.
  cbv zeta. split; [discriminate|]. split; [reflexivity|].
  split; [intros [x H]; discriminate H|].
  split; [discriminate|]. split; [reflexivity|].
  intros [x H]. discriminate H.
Qed.

End ModelsFacts.

(** ** More on the policy and the login route *)

Module PolicyFacts.
Import Py PyStr PyStrFacts Config ConfigFacts Flask Supabase App.

Lemma truthy_str_false s : truthy_str s = false <-> s = EmptyString.
Proof. destruct s; simpl; split; congruence. Qed.

Lemma parse_emails_nonempty s : parse_emails s <> [].
Proof.
  unfold parse_emails. intros H. apply map_eq_nil in H.
  now apply split_nonempty in H.
Qed.

(** A string of [n] letters [a]. *)
Fixpoint letters (n : nat) : string :=
  match n with
  | O => EmptyString
  | S k => String "a" (letters k)
  end.

Lemma lower_letters n : lower (letters n) = letters n.
Proof. induction n; simpl; [reflexivity|]. now rewrite IHn. Qed.

Lemma length_letters n : String.length (letters n) = n.
Proof. induction n; simpl; congruence. Qed.

(** The longest entry of a list. *)
Definition longest (l : list string) : nat :=
  fold_right (fun e m => Nat.max (String.length e) m) 0 l.

Lemma longest_bound l e : In e l -> (String.length e <= longest l)%nat.
Proof.
  induction l as [|x l IH]; simpl; [tauto|].
  intros [->|H]; [lia|]. specialize (IH H). lia.
Qed.

Lemma letters_fresh l : ~ In (letters (S (longest l))) l.
Proof.
  intros H. apply longest_bound in H. rewrite length_letters in H. lia.
Qed.

(** X1. The login gate lets every e-mail pass exactly when
    [ALLOWED_EMAILS] is unset or empty: once the variable has any text, even
    blanks or commas only, some e-mail is turned away. *)
Theorem gate_open_iff_allowlist_unset (env : Env) :
  (forall E, login_gate (load_access_control env) E = true)
  <-> getenv env "ALLOWED_EMAILS" "" = EmptyString.
Proof.
  destruct (load_access_control_normalized env) as [Hal Had].
  split.
  - intros H.
    set (P := load_access_control env) in *.
    set (E := letters (S (longest (allowed_emails P ++ admin_emails P)))).
    specialize (H E). unfold login_gate in H.
    rewrite (normalized_map_lower _ Hal), (normalized_map_lower _ Had) in H.
    assert (F : ~ In (lower E) (allowed_emails P ++ admin_emails P))
      by (unfold E; rewrite lower_letters; apply letters_fresh).
    assert (Fa : py_in (lower E) (allowed_emails P) = false).
    { destruct (py_in _ (allowed_emails P)) eqn:K; [|reflexivity].
      apply py_in_In in K. exfalso. apply F, in_or_app. now left. }
    assert (Fd : py_in (lower E) (admin_emails P) = false).
    { destruct (py_in _ (admin_emails P)) eqn:K; [|reflexivity].
      apply py_in_In in K. exfalso. apply F, in_or_app. now right. }
    rewrite Fa, Fd in H. cbn [negb] in H. rewrite andb_true_r in H.
    apply truthy_str_false.
    destruct (truthy_str (getenv env "ALLOWED_EMAILS" "")) eqn:T; [|reflexivity].
    exfalso. subst P. unfold load_access_control in H. cbn [allowed_emails] in H.
    rewrite T in H.
    destruct (parse_emails (getenv env "ALLOWED_EMAILS" "")) eqn:Q;
      [now apply parse_emails_nonempty in Q|discriminate].
  - intros H E. unfold login_gate, load_access_control. cbn [allowed_emails].
    rewrite H. reflexivity.
Qed.

(** X4. Whatever the policy, an e-mail that reconciliation would flag as
    admin passes the login gate. *)
Theorem admin_passes_gate (P : AccessControl) (E : string) :
  py_in (lower E) (admin_emails P) = true -> login_gate P E = true.
Proof.
  intros H. unfold login_gate.
  destruct (truthy_list (allowed_emails P)
            && negb (py_in (lower E) (map lower (allowed_emails P))));
    [|reflexivity].
  assert (K : py_in (lower E) (map lower (admin_emails P)) = true).
  { apply py_in_In. apply py_in_In in H.
    rewrite <- (lower_idem E). now apply in_map. }
  now rewrite K.
Qed.

Lemma admin_passes_gate_witness :
  py_in (lower "Bob@X.com") (admin_emails (mkAccessControl ["a@x.com"] ["bob@x.com"]))
    = true /\
  login_gate (mkAccessControl ["a@x.com"] ["bob@x.com"]) "Bob@X.com" = true.
Proof.
  split; [reflexivity|].
  exact (admin_passes_gate (mkAccessControl ["a@x.com"] ["bob@x.com"])
           "Bob@X.com" eq_refl).
Defined.

(** *** The entries of a loaded list *)

Lemma is_space_lower c : is_space (lower_ascii c) = is_space c.
Proof. destruct c as [[] [] [] [] [] [] [] []]; reflexivity. Qed.

Lemma lstrip_lower s : lstrip (lower s) = lower (lstrip s).
Proof.
  induction s as [|c r IH]; simpl; [reflexivity|].
  rewrite is_space_lower. destruct (is_space c); [exact IH|reflexivity].
Qed.

Lemma rstrip_lower s : rstrip (lower s) = lower (rstrip s).
Proof.
  induction s as [|c r IH]; simpl; [reflexivity|].
  rewrite IH, is_space_lower.
  destruct (rstrip r); simpl; [destruct (is_space c)|]; reflexivity.
Qed.

(** Nothing to strip on the left. *)
Definition left_clean (s : string) : Prop :=
  match s with
  | EmptyString => True
  | String c _ => is_space c = false
  end.

Lemma lstrip_left_clean s : left_clean (lstrip s).
Proof.
  induction s as [|c r IH]; simpl; [exact I|].
  destruct (is_space c) eqn:E; [exact IH|exact E].
Qed.

Lemma lstrip_fixed s : left_clean s -> lstrip s = s.
Proof. destruct s as [|c r]; simpl; [reflexivity|]. now intros ->. Qed.

Lemma rstrip_left_clean s : left_clean s -> left_clean (rstrip s).
Proof.
  destruct s as [|c r]; simpl; [trivial|]. intros E.
  destruct (rstrip r); simpl; [rewrite E|]; exact E.
Qed.

Lemma rstrip_idem s : rstrip (rstrip s) = rstrip s.
Proof.
  induction s as [|c r IH]; simpl; [reflexivity|].
  destruct (rstrip r) as [|c' r'] eqn:E.
  - destruct (is_space c) eqn:Ec; simpl; [reflexivity|now rewrite Ec].
  - simpl in IH |- *. destruct (rstrip r') as [|c'' r''] eqn:E'.
    + destruct (is_space c'); [discriminate|]. now rewrite IH.
    + now rewrite IH.
Qed.

Lemma strip_idem s : strip (strip s) = strip s.
Proof.
  unfold strip.
  rewrite (lstrip_fixed (rstrip (lstrip s)));
    [apply rstrip_idem|apply rstrip_left_clean, lstrip_left_clean].
Qed.

Lemma strip_lower s : strip (lower s) = lower (strip s).
Proof. unfold strip. now rewrite lstrip_lower, rstrip_lower. Qed.

(** X2. Every entry of the two lists of a loaded policy is in normal form:
    stripping it or lower-casing it again gives the same text. *)
Theorem loaded_entries_normal_form (env : Env) (e : string) :
  In e (allowed_emails (load_access_control env)
        ++ admin_emails (load_access_control env)) ->
  strip e = e /\ lower e = e.
Proof.
  assert (K : forall s x, In x (parse_emails s) -> strip x = x /\ lower x = x).
  { intros s x H. unfold parse_emails in H.
    apply in_map_iff in H as [y [<- _]]. split.
    - now rewrite strip_lower, strip_idem.
    - apply lower_idem. }
  unfold load_access_control. cbn [allowed_emails admin_emails].
  intros H. apply in_app_or in H as [H|H].
  - destruct (truthy_str (getenv env "ALLOWED_EMAILS" "")); [eauto|destruct H].
  - destruct (truthy_str (getenv env "ADMIN_EMAILS" "")); [eauto|destruct H].
Qed.

Lemma loaded_entries_normal_form_witness :
  In "bob@x.com"
     (allowed_emails (load_access_control [("ADMIN_EMAILS", " Bob@X.com ,c@y.org")])
      ++ admin_emails (load_access_control [("ADMIN_EMAILS", " Bob@X.com ,c@y.org")]))
  /\ (strip "bob@x.com" = "bob@x.com" /\ lower "bob@x.com" = "bob@x.com").
Proof.
  assert (H : In "bob@x.com"
     (allowed_emails (load_access_control [("ADMIN_EMAILS", " Bob@X.com ,c@y.org")])
      ++ admin_emails (load_access_control [("ADMIN_EMAILS", " Bob@X.com ,c@y.org")])))
    by (left; reflexivity).
  split; [exact H|].
  exact (loaded_entries_normal_form _ _ H).
Defined.

(** The number of separators in a string. *)
Fixpoint count_char (sep : ascii) (s : string) : nat :=
  match s with
  | EmptyString => O
  | String c r => (if Ascii.eqb c sep then 1 else 0) + count_char sep r
  end.

Lemma split_go_length sep acc s :
  List.length (split_go sep acc s) = S (count_char sep s).
Proof.
  revert acc. induction s as [|c r IH]; intros acc; simpl; [reflexivity|].
  destruct (Ascii.eqb c sep); simpl; now rewrite IH.
Qed.

(** X3. A list variable that is set and not empty gives one entry per
    comma-separated field, empty fields included: a value with [k] commas
    gives [k + 1] entries; a variable that is unset or empty gives none. *)
Theorem loaded_list_length (env : Env) :
  let count v := match getenv env v "" with
                 | EmptyString => O
                 | s => S (count_char "," s)
                 end in
  List.length (admin_emails (load_access_control env)) = count "ADMIN_EMAILS"
  /\
  List.length (allowed_emails (load_access_control env)) = count "ALLOWED_EMAILS".
Proof.
  cbv zeta. unfold load_access_control. cbn [allowed_emails admin_emails].
  split.
  - destruct (getenv env "ADMIN_EMAILS" "") as [|c r] eqn:E; [reflexivity|].
    cbn [truthy_str]. unfold parse_emails, split.
    now rewrite List.length_map, split_go_length.
  - destruct (getenv env "ALLOWED_EMAILS" "") as [|c r] eqn:E; [reflexivity|].
    cbn [truthy_str]. unfold parse_emails, split.
    now rewrite List.length_map, split_go_length.
Qed.

End PolicyFacts.

Module LoginFacts.
Import Py PyStr PyStrFacts Config ConfigFacts Flask Supabase App AppFacts.

(** X5. A request that arrives without a session leaves the login route
    with one only after a POST for which the provider returned a user, the
    gate let the typed e-mail pass and the reconciliation returned a record;
    the session then carries that record's fields and the provider's token,
    and the answer is the redirect to the dashboard. *)
Theorem session_only_after_full_login
    (supabase : option Provider) (P : AccessControl)
    (reconcile : SupabaseUser -> AccessControl -> Outcome LocalUser)
    (request : Request) (resp : Response) (s : SessionUser)
    (events : list Event) :
  login supabase P reconcile None request = (resp, Some s, events) ->
  method request = POST /\
  resp = Redirect "dashboard" /\
  exists sb res user lu,
    supabase = Some sb /\
    sign_in_with_password sb (form_email request) (form_password request)
      = Return res /\
    res_user res = Some user /\
    login_gate P (form_email request) = true /\
    reconcile user P = Return lu /\
    s = mkSessionUser (lu_id lu) (lu_supabase_id lu) (lu_username lu)
          (lu_email lu) (lu_full_name lu) (lu_is_admin lu)
          (res_access_token res).
Proof.
  unfold login, login_failed.
  destruct (method request); [discriminate|].
  destruct supabase as [sb|]; [|discriminate].
  destruct (sign_in_with_password sb (form_email request) (form_password request))
    as [res|e] eqn:Es; [|discriminate].
  destruct (res_user res) as [user|] eqn:Eu; [|discriminate].
  destruct (login_gate P (form_email request)) eqn:Eg.
  - destruct (reconcile user P) as [lu|e] eqn:Er; [|discriminate].
    intros [= <- <- _]. split; [reflexivity|]. split; [reflexivity|].
    exists sb, res, user, lu. repeat split; assumption || reflexivity.
  - destruct (sign_out sb); discriminate.
Qed.

Definition good_provider : Provider :=
  mkProvider
    (fun email _ =>
       Return (mkAuthResponse (Some (mkSupabaseUser "sb-1" email None)) "tok"))
    (Return tt).

Definition local_of (u : SupabaseUser) (_ : AccessControl) : Outcome LocalUser :=
  Return (mkLocalUser 1 (Some (su_id u)) (Some "ann") (su_email u)
                      (Some "Ann") false).

Definition post_ann : Request := mkRequest POST "ann@x.com" "secret".

Lemma session_only_after_full_login_witness :
  method post_ann = POST /\
  Redirect "dashboard" = Redirect "dashboard" /\
  exists sb res user lu,
    Some good_provider = Some sb /\
    sign_in_with_password sb (form_email post_ann) (form_password post_ann)
      = Return res /\
    res_user res = Some user /\
    login_gate (load_access_control []) (form_email post_ann) = true /\
    local_of user (load_access_control []) = Return lu /\
    mkSessionUser 1 (Some "sb-1") (Some "ann") "ann@x.com" (Some "Ann") false "tok"
    = mkSessionUser (lu_id lu) (lu_supabase_id lu) (lu_username lu)
        (lu_email lu) (lu_full_name lu) (lu_is_admin lu)
        (res_access_token res).
Proof.
  exact (session_only_after_full_login (Some good_provider)
           (load_access_control []) local_of post_ann _ _ _ eq_refl).
Defined.

(** X6. Under a loaded policy with a non-empty allow-list, a user the
    provider has authenticated whose typed e-mail is in neither list gets
    the login page and no session; the provider is told to sign out and the
    reconciliation is never run, whatever the sign-out answers. *)
Theorem unlisted_email_is_turned_away
    (env : Env) (sb : Provider)
    (reconcile : SupabaseUser -> AccessControl -> Outcome LocalUser)
    (request : Request) (res : AuthResponse) (user : SupabaseUser) :
  let P := load_access_control env in
  method request = POST ->
  sign_in_with_password sb (form_email request) (form_password request)
    = Return res ->
  res_user res = Some user ->
  allowed_emails P <> [] ->
  ~ In (lower (form_email request)) (allowed_emails P) ->
  ~ In (lower (form_email request)) (admin_emails P) ->
  let '(resp, session, events) := login (Some sb) P reconcile None request in
  resp = RenderTemplate "login.html" /\
  session = None /\
  In SignOut events /\
  (forall u, ~ In (Reconcile u) events).
Proof.
  intros P Hm Hs Hu Hne Hal Had.
  destruct (load_access_control_normalized env) as [Nal Nad]. fold P in Nal, Nad.
  assert (G : login_gate P (form_email request) = false).
  { destruct (login_gate P (form_email request)) eqn:G; [|reflexivity].
    apply (login_gate_normalized P _ Nal Nad) in G. tauto. }
  unfold login. rewrite Hm, Hs, Hu, G.
  destruct (sign_out sb); simpl; repeat split; auto;
    intros u K; repeat (destruct K as [K|K]; try discriminate; try assumption).
Qed.

Definition guests_only : Env := [("ALLOWED_EMAILS", "a@x.com")].

Lemma unlisted_email_is_turned_away_witness :
  login (Some good_provider) (load_access_control guests_only) local_of None
        post_ann
  = (RenderTemplate "login.html", None,
     [SignIn "ann@x.com" "secret";
      Logged (mkLog WARNING "Login denied for ann@x.com: Not in allowed list");
      SignOut;
      Flash "Access denied. You are not authorized." "error"])
  /\
  (RenderTemplate "login.html" = RenderTemplate "login.html" /\
   @None SessionUser = None /\
   In SignOut [SignIn "ann@x.com" "secret";
      Logged (mkLog WARNING "Login denied for ann@x.com: Not in allowed list");
      SignOut;
      Flash "Access denied. You are not authorized." "error"] /\
   (forall u, ~ In (Reconcile u) [SignIn "ann@x.com" "secret";
      Logged (mkLog WARNING "Login denied for ann@x.com: Not in allowed list");
      SignOut;
      Flash "Access denied. You are not authorized." "error"])).
Proof.
  split; [reflexivity|].
  refine (unlisted_email_is_turned_away guests_only good_provider local_of
            post_ann _ _ eq_refl eq_refl eq_refl _ _ _).
  - intros K. cbv in K. discriminate K.
  - intros K. cbv in K. destruct K as [K|[]]. discriminate K.
  - intros K. cbv in K. exact K.
Defined.

(** X7. When [SUPABASE_URL] or [SUPABASE_KEY] is unset or empty, the
    application starts without a client, the client constructor is never
    consulted, and every POST to the login route without a session is
    answered by the login page with "Authentication service unavailable":
    no credential is checked. *)
Theorem login_unavailable_without_config
    (env : Env) (create_client : string -> string -> Outcome Provider)
    (P : AccessControl)
    (reconcile : SupabaseUser -> AccessControl -> Outcome LocalUser)
    (request : Request) :
  falsy_opt (getenv_opt env "SUPABASE_URL")
  || falsy_opt (getenv_opt env "SUPABASE_KEY") = true ->
  method request = POST ->
  init_supabase create_client env
  = (None,
     [mkLog ERROR "Missing SUPABASE_URL or SUPABASE_KEY environment variables";
      mkLog WARNING "Supabase configuration missing. Authentication will fail."])
  /\
  login (fst (init_supabase create_client env)) P reconcile None request
  = (RenderTemplate "login.html", None,
     [Flash "Authentication service unavailable" "error"]).
Proof.
  intros H Hm.
  assert (E : init_supabase create_client env
              = (None,
                 [mkLog ERROR "Missing SUPABASE_URL or SUPABASE_KEY environment variables";
                  mkLog WARNING "Supabase configuration missing. Authentication will fail."])).
  { unfold init_supabase, get_supabase_config. rewrite H. reflexivity. }
  split; [exact E|]. rewrite E. unfold login. cbn [fst]. now rewrite Hm.
Qed.

Lemma login_unavailable_without_config_witness :
  falsy_opt (getenv_opt [("SUPABASE_URL", "https://p.supabase.co")] "SUPABASE_URL")
  || falsy_opt (getenv_opt [("SUPABASE_URL", "https://p.supabase.co")] "SUPABASE_KEY")
  = true /\
  login (fst (init_supabase (fun _ _ => Return good_provider)
                [("SUPABASE_URL", "https://p.supabase.co")]))
        (load_access_control []) local_of None post_ann
  = (RenderTemplate "login.html", None,
     [Flash "Authentication service unavailable" "error"]).
Proof.
  split; [reflexivity|].
  exact (proj2 (login_unavailable_without_config
                  [("SUPABASE_URL", "https://p.supabase.co")]
                  (fun _ _ => Return good_provider)
                  (load_access_control []) local_of post_ann eq_refl eq_refl)).
Defined.

(** X24. Once the provider has been asked, every exception looks the same
    to the user: whether the sign-in raises, or the reconciliation raises
    after the gate has let the e-mail pass, the answer is the login page
    with "Invalid email or password", no session, and the exception text in
    the error log only. *)
Theorem login_failures_look_alike
    (sb : Provider) (P : AccessControl)
    (reconcile : SupabaseUser -> AccessControl -> Outcome LocalUser)
    (request : Request) (e : Exn) :
  method request = POST ->
  sign_in_with_password sb (form_email request) (form_password request)
    = Raise e \/
  (exists res user,
      sign_in_with_password sb (form_email request) (form_password request)
        = Return res /\
      res_user res = Some user /\
      login_gate P (form_email request) = true /\
      reconcile user P = Raise e) ->
  exists before,
    login (Some sb) P reconcile None request
    = (RenderTemplate "login.html", None,
       before ++ [Logged (mkLog ERROR ("Login failed: " ++ str_exn e)%string);
                  Flash "Invalid email or password" "error"]) /\
    forall ev, In ev before -> forall m c, ev <> Flash m c.
Proof.
  intros Hm [Hs|[res [user [Hs [Hu [Hg Hr]]]]]]; unfold login, login_failed;
    rewrite Hm, Hs.
  - eexists. split; [reflexivity|].
    intros ev [<-|[]] m c. discriminate.
  - rewrite Hu, Hg, Hr. eexists. split; [reflexivity|].
    intros ev [<-|[<-|[]]] m c; discriminate.
Qed.

Definition failing_reconcile (_ : SupabaseUser) (_ : AccessControl)
  : Outcome LocalUser :=
  Raise (AttributeError
           "'sqlite3.Connection' object has no attribute 'lastrowid'").

Lemma login_failures_look_alike_witness :
  method post_ann = POST /\
  exists before,
    login (Some good_provider) (load_access_control []) failing_reconcile None
          post_ann
    = (RenderTemplate "login.html", None,
       before ++
       [Logged (mkLog ERROR
          "Login failed: 'sqlite3.Connection' object has no attribute 'lastrowid'");
        Flash "Invalid email or password" "error"]) /\
    forall ev, In ev before -> forall m c, ev <> Flash m c.
Proof.
  split; [reflexivity|].
  refine (login_failures_look_alike good_provider (load_access_control [])
            failing_reconcile post_ann
            (AttributeError
               "'sqlite3.Connection' object has no attribute 'lastrowid'")
            eq_refl (or_intror _)).
  exists (mkAuthResponse (Some (mkSupabaseUser "sb-1" "ann@x.com" None)) "tok"),
         (mkSupabaseUser "sb-1" "ann@x.com" None).
  repeat split.
Defined.

End LoginFacts.

(** ** The guards *)

Module GuardFacts.
Import Py PyStr Flask Authentication.

(** X8. Stacking the authentication guard on another guard, inside or
    outside, changes nothing: every guard already sends a request without a
    session to the login page before anything else. *)
Theorem login_required_is_absorbed
    (lookup : Z -> string -> M bool) (feature : string)
    (f : M Response) (s : Session) :
  login_required (admin_required f s) s = admin_required f s /\
  admin_required (login_required f s) s = admin_required f s /\
  login_required (feature_required lookup feature f s) s
  = feature_required lookup feature f s /\
  feature_required lookup feature (login_required f s) s
  = feature_required lookup feature f s /\
  login_required (login_required f s) s = login_required f s.
Proof. destruct s; repeat split; reflexivity. Qed.

(** X9. The API guard never redirects on its own: a redirect that leaves a
    guarded API view comes from the view, run with a session; without a
    session the answer is the JSON error with status 401 and nothing is
    logged. *)
Theorem api_guard_never_redirects
    (f : M Response) (s : Session) (log log' : Log) (endpoint : string) :
  api_auth_required f s log = (Return (Redirect endpoint), log') ->
  s <> None /\ f log = (Return (Redirect endpoint), log').
Proof.
  destruct s as [u|]; simpl.
  - intros H. split; [discriminate|exact H].
  - discriminate.
Qed.

Definition member : SessionUser :=
  mkSessionUser 3 (Some "sb-3") (Some "carol") "carol@x.com" (Some "Carol")
                false "tok".

Lemma api_guard_never_redirects_witness :
  Some member <> None /\
  ret (Redirect "dashboard") ([] : Log) = (Return (Redirect "dashboard"), []).
Proof.
  exact (api_guard_never_redirects (ret (Redirect "dashboard")) (Some member)
           [] [] "dashboard" eq_refl).
Defined.

(** X10. The admin guard runs the view for an admin session only: for a
    request without a session or with a session that is not admin, the
    answer is a redirect, the same for every view, and the log is as it
    was. *)
Theorem admin_guard_blocks_non_admin
    (f g : M Response) (s : Session) (log : Log) :
  (forall u, s = Some u -> s_is_admin u = false) ->
  admin_required f s log = admin_required g s log /\
  exists endpoint, admin_required f s log = (Return (Redirect endpoint), log).
Proof.
  intros H. destruct s as [u|]; simpl.
  - rewrite (H u eq_refl). simpl. split; [reflexivity|].
    eexists; reflexivity.
  - split; [reflexivity|]. eexists; reflexivity.
Qed.

Lemma admin_guard_blocks_non_admin_witness :
  (forall u, Some member = Some u -> s_is_admin u = false) /\
  (admin_required (ret (RenderTemplate "admin.html")) (Some member) []
   = admin_required (ret (RenderTemplate "other.html")) (Some member) [] /\
   exists endpoint,
     admin_required (ret (RenderTemplate "admin.html")) (Some member) []
     = (Return (Redirect endpoint), [])).
Proof.
  assert (H : forall u, Some member = Some u -> s_is_admin u = false)
    by (intros u [= <-]; reflexivity).
  split; [exact H|].
  exact (admin_guard_blocks_non_admin
           (ret (RenderTemplate "admin.html")) (ret (RenderTemplate "other.html"))
           (Some member) [] H).
Defined.

End GuardFacts.

(** ** More on schema initialisation *)

Module SchemaMoreFacts.
Import Py PyStr Schema SchemaFacts.

(** [t'] is [t] with columns added at the end. *)
Definition extends (t t' : Table) : Prop :=
  tbl_name t' = tbl_name t /\
  tbl_constraints t' = tbl_constraints t /\
  exists extra, tbl_columns t' = tbl_columns t ++ extra.

(** Every table of [s] is in [s'], extended at most. *)
Definition schema_kept (s s' : Schema) : Prop :=
  forall n t, find_table n s = Some t ->
              exists t', find_table n s' = Some t' /\ extends t t'.

Lemma extends_refl t : extends t t.
Proof. repeat split. exists []. now rewrite app_nil_r. Qed.

Lemma extends_trans a b c : extends a b -> extends b c -> extends a c.
Proof.
  intros [N1 [C1 [x1 E1]]] [N2 [C2 [x2 E2]]]. repeat split; try congruence.
  exists (x1 ++ x2). now rewrite E2, E1, app_assoc.
Qed.

Lemma schema_kept_refl s : schema_kept s s.
Proof. intros n t H. exists t. split; [assumption|apply extends_refl]. Qed.

Lemma schema_kept_trans a b c :
  schema_kept a b -> schema_kept b c -> schema_kept a c.
Proof.
  intros H1 H2 n t H. destruct (H1 n t H) as [t1 [F1 X1]].
  destruct (H2 n t1 F1) as [t2 [F2 X2]].
  exists t2. split; [assumption|]. now apply (extends_trans t t1 t2).
Qed.

Lemma add_column_kept n c s : schema_kept s (add_column n c s).
Proof.
  intros m t. induction s as [|t0 s IH]; simpl; [discriminate|].
  destruct (same_ident (tbl_name t0) n) eqn:En; simpl.
  - destruct (same_ident (tbl_name t0) m) eqn:Em.
    + intros [= <-]. eexists; split; [reflexivity|].
      repeat split. now exists [c].
    + intros H. exists t. split; [assumption|apply extends_refl].
  - destruct (same_ident (tbl_name t0) m) eqn:Em.
    + intros [= <-]. exists t0. split; [reflexivity|apply extends_refl].
    + exact IH.
Qed.

Lemma execute_kept stmt s s' : execute stmt s = Return s' -> schema_kept s s'.
Proof.
  destruct stmt as [t|n c]; simpl.
  - destruct (find_table (tbl_name t) s); intros [= <-].
    + apply schema_kept_refl.
    + intros m x H. exists x. split; [now apply find_table_app|apply extends_refl].
  - destruct (find_table n s) as [t|]; [|discriminate].
    destruct (has_column (col_name c) t); [discriminate|].
    intros [= <-]. apply add_column_kept.
Qed.

Lemma run_one_kept m d conn log conn' log' r :
  run_one m d (conn, log) = (r, (conn', log')) -> schema_kept conn conn'.
Proof.
  unfold run_one. destruct (execute m conn) as [c1|e] eqn:E.
  - intros [= _ <- _]. now apply (execute_kept m).
  - destruct e; try (intros [= _ <- _]; apply schema_kept_refl).
    destruct (_ || _); intros [= _ <- _]; apply schema_kept_refl.
Qed.

Lemma run_loop_kept ms conn log conn' log' r :
  run_loop ms (conn, log) = (r, (conn', log')) -> schema_kept conn conn'.
Proof.
  revert conn log. induction ms as [|[m d] ms IH]; intros conn log; cbn [run_loop].
  - intros [= _ <- _]. apply schema_kept_refl.
  - destruct (run_one m d (conn, log)) as [[e|] [c1 l1]] eqn:E.
    + intros [= _ <- _]. now apply (run_one_kept m d conn log c1 l1 (Some e)).
    + intros H. eapply schema_kept_trans; [|eapply IH; exact H].
      now apply (run_one_kept m d conn log c1 l1 None).
Qed.

Lemma execute_all_kept stmts s s' :
  execute_all stmts s = Return s' -> schema_kept s s'.
Proof.
  revert s. induction stmts as [|stmt rest IH]; intros s; simpl.
  - intros [= <-]. apply schema_kept_refl.
  - destruct (execute stmt s) as [s1|e] eqn:E; [|discriminate].
    intros H. apply schema_kept_trans with s1;
      [exact (execute_kept _ _ _ E)|now apply IH].
Qed.

(** X11. Initialisation loses nothing, whatever schema it starts from:
    every table that was there is there afterwards under the same name and
    with the same constraints, and its columns are the old ones, in order,
    followed by the added ones. *)
Theorem init_db_keeps_schema (s : Schema) (log : Log) :
  exists s1 log1,
    init_db (s, log) = (Return tt, (s1, log1)) /\ schema_kept s s1.
Proof.
  destruct (init_db_establishes s log) as [s1 [log1 [E _]]].
  exists s1, log1. split; [exact E|].
  unfold init_db in E.
  destruct (execute_all create_statements s) as [s0|e] eqn:E0; [|discriminate].
  apply schema_kept_trans with s0; [exact (execute_all_kept _ _ _ E0)|].
  now apply (run_loop_kept migrations s0 log s1 log1 (Return tt)).
Qed.

(** X12. After initialisation, whatever the schema before, the six tables
    exist, and so do the three completion columns of [shopping_items] and
    the [supabase_id] column of [users]. *)
Theorem init_db_initialises (s : Schema) (log : Log) :
  exists s1 log1,
    init_db (s, log) = (Return tt, (s1, log1)) /\
    Forall (fun n => table_exists n s1)
      ["users"; "shopping_items"; "chores"; "expiry_items"; "bills"; "settings"]
    /\
    Forall (fun c => column_exists "shopping_items" c s1)
      ["completed"; "completed_by"; "completed_at"] /\
    column_exists "users" "supabase_id" s1.
Proof.
  destruct (init_db_establishes s log) as [s1 [log1 [E [Ft Fc]]]].
  exists s1, log1. split; [exact E|].
  unfold migrations in Fc.
  repeat match goal with
         | H : Forall _ (_ :: _) |- _ => inversion H; subst; clear H
         end.
  cbn in *.
  repeat split; repeat constructor; assumption.
Qed.

(** *** An installation that predates the external references *)

Lemma same_ident_trans a b c :
  same_ident a b = true -> same_ident a c = true -> same_ident b c = true.
Proof.
  unfold same_ident. intros H1 H2.
  apply String.eqb_eq in H1, H2. apply String.eqb_eq. congruence.
Qed.

Lemma find_table_add_column_other n m c s :
  same_ident n m = false ->
  find_table m (add_column n c s) = find_table m s.
Proof.
  intros D. induction s as [|t0 s IH]; simpl; [reflexivity|].
  destruct (same_ident (tbl_name t0) n) eqn:En; simpl.
  - destruct (same_ident (tbl_name t0) m) eqn:Em; [|reflexivity].
    rewrite (same_ident_trans _ _ _ En Em) in D. discriminate.
  - destruct (same_ident (tbl_name t0) m); [reflexivity|exact IH].
Qed.

Lemma find_table_add_column_same n c s t :
  find_table n s = Some t ->
  find_table n (add_column n c s)
  = Some (mkTable (tbl_name t) (tbl_columns t ++ [c]) (tbl_constraints t)).
Proof.
  induction s as [|t0 s IH]; simpl; [discriminate|].
  destruct (same_ident (tbl_name t0) n) eqn:En; simpl; rewrite En.
  - now intros [= <-].
  - exact IH.
Qed.

Lemma execute_all_creates_same ts s m t :
  find_table m s = Some t ->
  exists s', execute_all (map CreateTableIfNotExists ts) s = Return s' /\
             find_table m s' = Some t.
Proof.
  revert s. induction ts as [|t0 ts IH]; intros s H; cbn [map execute_all].
  - eauto.
  - cbn [execute]. destruct (find_table (tbl_name t0) s).
    + now apply IH.
    + apply IH. now apply find_table_app.
Qed.

Lemma run_one_other_table n c d conn log m :
  same_ident n m = false ->
  exists conn' log',
    run_one (AlterTableAddColumn n c) d (conn, log) = (None, (conn', log')) /\
    find_table m conn' = find_table m conn.
Proof.
  intros D. unfold run_one. cbn [execute].
  destruct (find_table n conn) as [t|].
  - destruct (has_column (col_name c) t).
    + destruct (_ || _); do 2 eexists; split; reflexivity.
    + do 2 eexists. split; [reflexivity|].
      now apply find_table_add_column_other.
  - destruct (_ || _); do 2 eexists; split; reflexivity.
Qed.

(** X13. When the [users] table is already there without a [supabase_id]
    column, initialisation leaves the table as it is but for one column
    appended, declared plain [TEXT]: the [UNIQUE NOT NULL] of the
    [CREATE TABLE] statement is not installed on such a database. *)
Theorem legacy_users_gets_plain_column (s : Schema) (log : Log) (t : Table) :
  find_table "users" s = Some t ->
  has_column "supabase_id" t = false ->
  exists s1 log1,
    init_db (s, log) = (Return tt, (s1, log1)) /\
    find_table "users" s1
    = Some (mkTable (tbl_name t)
                    (tbl_columns t ++ [col "supabase_id" "TEXT"])
                    (tbl_constraints t)).
Proof.
  intros Ht Hc. unfold init_db, create_statements.
  destruct (execute_all_creates_same
              [users_table; shopping_items_table; chores_table;
               expiry_items_table; bills_table; settings_table] s "users" t Ht)
    as [s0 [-> H0]].
  unfold _run_migrations, migrations. cbn [run_loop].
  destruct (run_one_other_table "shopping_items"
              (col "completed" "BOOLEAN DEFAULT FALSE")
              "shopping_items completed column" s0 log "users" eq_refl)
    as [c1 [l1 [-> F1]]].
  destruct (run_one_other_table "shopping_items"
              (col "completed_by" "INTEGER")
              "shopping_items completed_by column" c1 l1 "users" eq_refl)
    as [c2 [l2 [-> F2]]].
  destruct (run_one_other_table "shopping_items"
              (col "completed_at" "TIMESTAMP")
              "shopping_items completed_at column" c2 l2 "users" eq_refl)
    as [c3 [l3 [-> F3]]].
  assert (H3 : find_table "users" c3 = Some t) by congruence.
  unfold run_one. cbn [execute]. rewrite H3. cbn [col_name col]. rewrite Hc.
  do 2 eexists. split; [reflexivity|].
  now apply find_table_add_column_same.
Qed.

(** A [users] table as an installation without external references has
    it. *)
Definition old_users_table : Table :=
  mkTable "users"
    [ col "id" "INTEGER PRIMARY KEY AUTOINCREMENT";
      col "username" "TEXT UNIQUE NOT NULL";
      col "email" "TEXT UNIQUE NOT NULL";
      col "full_name" "TEXT";
      col "is_admin" "BOOLEAN DEFAULT FALSE";
      col "oidc_sub" "TEXT UNIQUE" ]
    [].

Lemma legacy_users_gets_plain_column_witness :
  find_table "users" [old_users_table] = Some old_users_table /\
  has_column "supabase_id" old_users_table = false /\
  exists s1 log1,
    init_db ([old_users_table], []) = (Return tt, (s1, log1)) /\
    find_table "users" s1
    = Some (mkTable "users"
              (tbl_columns old_users_table ++ [col "supabase_id" "TEXT"]) []).
Proof.
  split; [reflexivity|]. split; [reflexivity|].
  exact (legacy_users_gets_plain_column [old_users_table] [] old_users_table
           eq_refl eq_refl).
Defined.

End SchemaMoreFacts.

(** ** More on the users table *)

Module UserFacts.
Import Py PyStr PyStrFacts Config ConfigFacts Supabase Models ModelsFacts.

(** What SQLite stores in an [INTEGER] column, and what [sqlite3] accepts
    as a parameter: a signed integer of 64 bits. *)
Definition fits_int64 (i : Z) : Prop :=
  (- 9223372036854775808 <= i <= 9223372036854775807)%Z.

Lemma update_where_id_absent i f s :
  find_by_id i s = None -> update_where_id i f s = s.
Proof.
  unfold find_by_id, update_where_id.
  induction s as [|r s IH]; simpl; [reflexivity|].
  destruct (Z.eqb (id r) i); [discriminate|]. intros H. now rewrite IH.
Qed.

Lemma get_user_by_id_reads i w :
  get_user_by_id i w
  = (Return (find_by_id i (file w)),
     mkWorld (file w) None (open_conns w) (executed w ++ [SelectById i; Close])
             (clock w) (rivals w) (supabase_id_unique w)).
Proof.
  unfold get_user_by_id, bind, get_connection, select_by_id, close, ret,
    traced, view; simpl.
  now rewrite <- app_assoc.
Qed.

Lemma update_last_activity_writes i w :
  update_last_activity i w
  = (Return tt,
     mkWorld (update_where_id i (set_last_activity (clock w)) (file w)) None
             (open_conns w) (executed w ++ [Commit; Close])
             (S (clock w)) (rivals w) (supabase_id_unique w)).
Proof.
  unfold update_last_activity, bind, get_connection, now, update_activity,
    commit, close, ret, set_pending, view; simpl.
  now rewrite <- app_assoc.
Qed.

(** X14. For an id that fits 64 bits: reading a user back after
    [update_last_activity] gives the row of that id as it was, with
    [last_activity] set to the time of the update and nothing else
    changed.  For an id no row has, the update changes nothing and the read
    gives [None].  Both calls close their connection. *)
Theorem activity_then_read (i : Z) (w : World) :
  fits_int64 i ->
  let w1 := snd (update_last_activity i w) in
  let r := get_user_by_id i w1 in
  fst r = Return (option_map (set_last_activity (clock w))
                             (find_by_id i (file w))) /\
  (find_by_id i (file w) = None -> file w1 = file w) /\
  open_conns w1 = open_conns w /\
  open_conns (snd r) = open_conns w.
Proof.
  intros _. cbv zeta. rewrite update_last_activity_writes. cbn [snd].
  rewrite get_user_by_id_reads. cbn [fst snd file open_conns].
  split.
  - rewrite find_by_id_update by reflexivity.
    destruct (find_by_id i (file w)) as [x|] eqn:E; [|reflexivity].
    simpl. apply find_some in E as [_ E]. now rewrite E.
  - split; [|split; reflexivity]. apply update_where_id_absent.
Qed.

Lemma activity_then_read_witness :
  fits_int64 1 /\
  fst (get_user_by_id 1 (snd (update_last_activity 1 (at_rest [bob_row] 9))))
  = Return (Some (set_last_activity 9 bob_row)).
Proof.
  assert (F : fits_int64 1)
    by (split; intros K; vm_compute in K; discriminate K).
  split; [exact F|].
  exact (proj1 (activity_then_read 1 (at_rest [bob_row] 9) F)).
Defined.

(** The columns the reconciliation reads and writes. *)
Definition same_login_data (r r' : Row) : Prop :=
  id r' = id r /\ username r' = username r /\ email r' = email r /\
  full_name r' = full_name r /\ is_admin r' = is_admin r /\
  supabase_id r' = supabase_id r /\ last_login r' = last_login r /\
  created_at r' = created_at r.

(** X15. [update_last_activity] writes the [last_activity] column only,
    in the rows of the given id only; so both lookups of the
    reconciliation find afterwards the row they found before. *)
Theorem activity_keeps_login_data (i : Z) (w : World) (sid e : string) :
  let w1 := snd (update_last_activity i w) in
  Forall2 (fun r r' => same_login_data r r' /\ (id r <> i -> r' = r))
          (file w) (file w1) /\
  find_by_supabase_id sid (file w1)
  = option_map (fun r => if Z.eqb (id r) i
                         then set_last_activity (clock w) r else r)
               (find_by_supabase_id sid (file w)) /\
  find_by_email e (file w1)
  = option_map (fun r => if Z.eqb (id r) i
                         then set_last_activity (clock w) r else r)
               (find_by_email e (file w)).
Proof.
  cbv zeta. rewrite update_last_activity_writes. cbn [snd file].
  split; [|split].
  - apply Forall2_map_r. intros r. destruct (Z.eqb (id r) i) eqn:E.
    + split; [repeat split|]. intros K. apply Z.eqb_eq in E. contradiction.
    + split; [repeat split|reflexivity].
  - unfold find_by_supabase_id, update_where_id. apply find_map.
    intros r. now destruct (Z.eqb (id r) i).
  - unfold find_by_email, update_where_id. apply find_map.
    intros r. now destruct (Z.eqb (id r) i).
Qed.

(** With ids a primary key, the row of an id is the row itself. *)
Lemma find_by_id_unique s u :
  NoDup (map id s) -> In u s -> find_by_id (id u) s = Some u.
Proof.
  unfold find_by_id. induction s as [|r s IH]; simpl; [tauto|].
  intros N [->|H].
  - now rewrite Z.eqb_refl.
  - inversion N as [|x l Hx Hl]; subst.
    destruct (Z.eqb (id r) (id u)) eqn:E; [|now apply IH].
    apply Z.eqb_eq in E. exfalso. apply Hx. rewrite E. now apply in_map.
Qed.

(** X16. Ids being a primary key: the record a call returns on the update
    path still has the name, admin flag and login time the row had before
    the call; reading the user again by the returned id gives the row with
    the name and admin flag computed by this call and the time of this
    call. *)
Theorem read_after_reconcile (su : SupabaseUser) (ac : AccessControl)
    (w : World) (u : Row) :
  NoDup (map id (file w)) ->
  find_by_supabase_id (su_id su) (file w) = Some u \/
  (find_by_supabase_id (su_id su) (file w) = None /\
   find_by_email (su_email su) (file w) = Some u) ->
  let r := get_or_create_supabase_user su ac w in
  exists x y,
    fst r = Return (Some x) /\
    (id x = id u /\ full_name x = full_name u /\ is_admin x = is_admin u /\
     last_login x = last_login u) /\
    fst (get_user_by_id (id x) (snd r)) = Return (Some y) /\
    (id y = id u /\ full_name y = Some (full_name_of su) /\
     is_admin y = is_admin_of su ac /\ last_login y = Some (clock w)).
Proof.
  intros N H r. subst r.
  assert (Hin : In u (file w))
    by (destruct H as [H|[_ H]]; now apply find_some in H).
  pose proof (find_by_id_unique _ _ N Hin) as F0.
  assert (K : forall s x0, find_by_id (id u) s = Some x0 ->
     exists y,
       find_by_id (id u)
         (update_where_id (id u)
            (set_login (clock w) (full_name_of su) (is_admin_of su ac)) s)
       = Some y /\ id y = id u /\
       full_name y = Some (full_name_of su) /\
       is_admin y = is_admin_of su ac /\ last_login y = Some (clock w)).
  { intros s x0 F. rewrite find_by_id_update by reflexivity. rewrite F. simpl.
    apply find_some in F as [_ F]. rewrite F.
    eexists; split; [reflexivity|]. simpl. apply Z.eqb_eq in F. auto. }
  destruct H as [H|[H1 H2]].
  - destruct (K _ _ F0) as [y [Fy Py]]. exists u, y.
    rewrite (call_primary su ac w u H). cbn [fst snd].
    rewrite get_user_by_id_reads. cbn [fst file]. rewrite Fy.
    destruct Py as [P1 [P2 [P3 P4]]]. repeat split; assumption || reflexivity.
  - assert (F : find_by_id (id u)
                  (update_where_id (id u) (set_supabase_id (su_id su)) (file w))
                = Some (set_supabase_id (su_id su) u)).
    { rewrite find_by_id_update by reflexivity. rewrite F0. simpl.
      now rewrite Z.eqb_refl. }
    destruct (K _ _ F) as [y [Fy Py]].
    exists (set_supabase_id (su_id su) u), y.
    rewrite (call_fallback su ac w u u H1 H2 F0). cbn [fst snd].
    rewrite get_user_by_id_reads. cbn [fst file id set_supabase_id].
    rewrite Fy.
    destruct Py as [P1 [P2 [P3 P4]]]. repeat split; assumption || reflexivity.
Qed.

Lemma read_after_reconcile_witness :
  NoDup (map id (file (at_rest [bob_row] 9))) /\
  find_by_supabase_id (su_id bob) (file (at_rest [bob_row] 9)) = Some bob_row /\
  exists x y,
    fst (get_or_create_supabase_user bob admins_policy (at_rest [bob_row] 9))
    = Return (Some x) /\
    (id x = id bob_row /\ full_name x = full_name bob_row /\
     is_admin x = is_admin bob_row /\ last_login x = last_login bob_row) /\
    fst (get_user_by_id (id x)
           (snd (get_or_create_supabase_user bob admins_policy
                   (at_rest [bob_row] 9))))
    = Return (Some y) /\
    (id y = id bob_row /\ full_name y = Some (full_name_of bob) /\
     is_admin y = is_admin_of bob admins_policy /\ last_login y = Some 9%nat).
Proof.
  assert (N : NoDup (map id (file (at_rest [bob_row] 9))))
    by (repeat constructor; simpl; tauto).
  split; [exact N|]. split; [reflexivity|].
  exact (read_after_reconcile bob admins_policy (at_rest [bob_row] 9) bob_row
           N (or_introl eq_refl)).
Defined.

(** *** A first login *)

Lemma next_id_above s i : In i (map id s) -> (i < next_id s)%Z.
Proof.
  unfold next_id. induction s as [|r s IH]; cbn [fold_right map In]; [tauto|].
  intros [<-|H]; [lia|]. specialize (IH H). lia.
Qed.


Lemma insert_into_free q v s :
  find_by_email (v_email v) s = None ->
  find_by_supabase_id (v_supabase_id v) s = None ->
  insert_into q v s = Return (s ++ [new_row (next_id s) v]).
Proof.
  intros H1 H2. unfold insert_into, email_taken.
  unfold find_by_email in H1. unfold find_by_supabase_id in H2.
  rewrite (find_none_existsb _ _ H1), (find_none_existsb _ _ H2).
  now rewrite andb_false_r.
Qed.

(** X17. An identity that neither lookup finds, on a database where no
    connection holds an uncommitted write, no other connection commits
    meanwhile and the ids leave room for one more: the call never returns
    a record.  It ends in the [AttributeError] of [conn.lastrowid] after
    the [INSERT]; the new row stays uncommitted in the abandoned
    connection, the table on file is as it was, and the connection is left
    open. *)
Theorem unknown_identity_never_registered
    (su : SupabaseUser) (ac : AccessControl) (w : World) :
  pending w = None ->
  rivals w = [] ->
  fits_int64 (next_id (file w)) ->
  find_by_supabase_id (su_id su) (file w) = None ->
  find_by_email (su_email su) (file w) = None ->
  let r := get_or_create_supabase_user su ac w in
  fst r = Raise no_lastrowid /\
  file (snd r) = file w /\
  (exists i, pending (snd r)
             = Some (file w ++ [new_row i (values_of su ac (clock w))])) /\
  open_conns (snd r) = S (open_conns w).
Proof.
  intros _ R _ H1 H2. cbv zeta.
  rewrite (call_create su ac w H1 H2). rewrite R. cbn [commit_rivals].
  rewrite (insert_into_free (supabase_id_unique w)
             (values_of su ac (clock w)) (file w) H2 H1).
  cbn [fst snd file pending open_conns].
  repeat split. eexists. reflexivity.
Qed.

Lemma unknown_identity_never_registered_witness :
  pending (at_rest [bob_row] 0) = None /\
  rivals (at_rest [bob_row] 0) = [] /\
  fits_int64 (next_id (file (at_rest [bob_row] 0))) /\
  find_by_supabase_id (su_id ann) (file (at_rest [bob_row] 0)) = None /\
  find_by_email (su_email ann) (file (at_rest [bob_row] 0)) = None /\
  fst (get_or_create_supabase_user ann open_policy (at_rest [bob_row] 0))
  = Raise no_lastrowid /\
  file (snd (get_or_create_supabase_user ann open_policy (at_rest [bob_row] 0)))
  = [bob_row].
Proof.
  assert (F : fits_int64 (next_id (file (at_rest [bob_row] 0))))
    by (split; intros K; vm_compute in K; discriminate K).
  split; [reflexivity|]. split; [reflexivity|]. split; [exact F|].
  split; [reflexivity|]. split; [reflexivity|].
  pose proof (unknown_identity_never_registered ann open_policy
                (at_rest [bob_row] 0) eq_refl eq_refl F eq_refl eq_refl) as H.
  cbv zeta in H. split; [exact (proj1 H)|exact (proj1 (proj2 H))].
Defined.

(** X18. Ids being a primary key, the e-mail fallback returns the matched
    row itself with the external reference filled in and every other column
    as stored before the call. *)
Theorem fallback_returns_matched_row
    (su : SupabaseUser) (ac : AccessControl) (w : World) (u : Row) :
  NoDup (map id (file w)) ->
  find_by_supabase_id (su_id su) (file w) = None ->
  find_by_email (su_email su) (file w) = Some u ->
  fst (get_or_create_supabase_user su ac w)
  = Return (Some (set_supabase_id (su_id su) u)).
Proof.
  intros N H1 H2.
  assert (F : find_by_id (id u) (file w) = Some u)
    by (apply find_by_id_unique; [assumption|now apply find_some in H2]).
  now rewrite (call_fallback su ac w u u H1 H2 F).
Qed.

Lemma fallback_returns_matched_row_witness :
  NoDup (map id (file (at_rest [legacy_row] 10))) /\
  find_by_supabase_id (su_id carol) (file (at_rest [legacy_row] 10)) = None /\
  find_by_email (su_email carol) (file (at_rest [legacy_row] 10))
    = Some legacy_row /\
  fst (get_or_create_supabase_user carol open_policy (at_rest [legacy_row] 10))
  = Return (Some (set_supabase_id "sb-3" legacy_row)).
Proof.
  assert (N : NoDup (map id (file (at_rest [legacy_row] 10))))
    by (repeat constructor; simpl; tauto).
  split; [exact N|]. split; [reflexivity|]. split; [reflexivity|].
  exact (fallback_returns_matched_row carol open_policy
           (at_rest [legacy_row] 10) legacy_row N eq_refl eq_refl).
Defined.

(** *** The constraints of the table *)

(** The external references that are set, in row order. *)
Definition external_ids (s : Store) : list string :=
  flat_map (fun r => match supabase_id r with Some x => [x] | None => [] end) s.

(** The constraints the table has: [id] is a primary key, [email] is
    unique, and [supabase_id], where it is not null, is unique in a table
    made by [init_db] ([q] true); a migrated table has no constraint on
    it. *)
Definition store_ok (q : bool) (s : Store) : Prop :=
  NoDup (map id s) /\ NoDup (map email s) /\
  (q = true -> NoDup (external_ids s)).

Lemma find_by_supabase_id_none sid s :
  find_by_supabase_id sid s = None <-> ~ In sid (external_ids s).
Proof.
  unfold find_by_supabase_id, external_ids.
  induction s as [|r s IH]; simpl; [tauto|].
  destruct (supabase_id r) as [x|]; simpl.
  - destruct (String.eqb x sid) eqn:E.
    + apply String.eqb_eq in E. split; [discriminate|]. intros K. tauto.
    + apply String.eqb_neq in E. rewrite IH. tauto.
  - exact IH.
Qed.

Lemma external_ids_app a b :
  external_ids (a ++ b) = external_ids a ++ external_ids b.
Proof. unfold external_ids. apply flat_map_app. Qed.

Lemma external_ids_update i f s :
  (forall r, supabase_id (f r) = supabase_id r) ->
  external_ids (update_where_id i f s) = external_ids s.
Proof.
  intros Hf. unfold external_ids, update_where_id.
  induction s as [|r s IH]; simpl; [reflexivity|].
  rewrite IH. destruct (Z.eqb (id r) i); [now rewrite Hf|reflexivity].
Qed.

Lemma emails_update i f s :
  (forall r, email (f r) = email r) ->
  map email (update_where_id i f s) = map email s.
Proof.
  intros Hf. unfold update_where_id. rewrite map_map. apply map_ext.
  intros r. destruct (Z.eqb (id r) i); [apply Hf|reflexivity].
Qed.

Lemma find_by_id_absent i s : ~ In i (map id s) -> find_by_id i s = None.
Proof.
  unfold find_by_id. induction s as [|r s IH]; simpl; [reflexivity|].
  intros H. destruct (Z.eqb (id r) i) eqn:E.
  - apply Z.eqb_eq in E. tauto.
  - apply IH. tauto.
Qed.

Lemma external_ids_backfill_in i sid s y :
  In y (external_ids (update_where_id i (set_supabase_id sid) s)) ->
  y = sid \/ In y (external_ids s).
Proof.
  unfold external_ids, update_where_id.
  induction s as [|r s IH]; simpl; [tauto|].
  rewrite !in_app_iff. intros [H|H].
  - destruct (Z.eqb (id r) i); simpl in H.
    + destruct H as [H|[]]. now left.
    + right. now left.
  - destruct (IH H); [now left|right; now right].
Qed.

Lemma NoDup_cons_app {A} (c : list A) (l : list A) :
  (List.length c <= 1)%nat -> (forall x, In x c -> ~ In x l) ->
  NoDup l -> NoDup (c ++ l).
Proof.
  destruct c as [|x [|y c]]; simpl; intros L H N.
  - assumption.
  - constructor; [apply H; now left|assumption].
  - lia.
Qed.

Lemma NoDup_app_tail {A} (c l : list A) : NoDup (c ++ l) -> NoDup l.
Proof.
  induction c as [|x c IH]; simpl; [trivial|].
  intros N. inversion N; subst. now apply IH.
Qed.

Lemma NoDup_app_disjoint {A} (c l : list A) x :
  NoDup (c ++ l) -> In x c -> ~ In x l.
Proof.
  induction c as [|y c IH]; simpl; [tauto|].
  intros N [->|H] K.
  - inversion N as [|? ? Hx ?]; subst. apply Hx, in_or_app. now right.
  - inversion N; subst. now apply (IH H3 H).
Qed.

(** The backfill keeps the external references distinct. *)
Lemma backfill_unique i sid s :
  NoDup (map id s) -> ~ In sid (external_ids s) ->
  NoDup (external_ids s) ->
  NoDup (external_ids (update_where_id i (set_supabase_id sid) s)).
Proof.
  induction s as [|r s IH]; [intros; constructor|].
  intros Ni Hs Ne.
  change (external_ids (r :: s))
    with ((match supabase_id r with Some x => [x] | None => [] end)
          ++ external_ids s) in Hs, Ne.
  inversion Ni as [|? ? Hr Nis]; subst.
  change (update_where_id i (set_supabase_id sid) (r :: s))
    with ((if Z.eqb (id r) i then set_supabase_id sid r else r)
          :: update_where_id i (set_supabase_id sid) s).
  change (external_ids (?a :: ?b))
    with ((match supabase_id a with Some x => [x] | None => [] end)
          ++ external_ids b).
  rewrite in_app_iff in Hs.
  destruct (Z.eqb (id r) i) eqn:E.
  - apply Z.eqb_eq in E. subst i.
    rewrite (update_where_id_absent _ _ _ (find_by_id_absent _ _ Hr)).
    simpl. constructor; [tauto|now apply NoDup_app_tail in Ne].
  - apply NoDup_cons_app.
    + destruct (supabase_id r); simpl; lia.
    + intros x Hx K. apply external_ids_backfill_in in K as [->|K].
      * tauto.
      * exact (NoDup_app_disjoint _ _ _ Ne Hx K).
    + apply IH; [assumption|tauto|now apply NoDup_app_tail in Ne].
Qed.

(** A successful [INSERT] keeps the constraints the table has. *)
Lemma insert_into_ok q v s s' :
  insert_into q v s = Return s' -> store_ok q s -> store_ok q s'.
Proof.
  intros H [Ni [Ne Nx]].
  pose proof (insert_into_unique q v s s' H Ne) as Ne'.
  unfold insert_into in H.
  destruct (q && existsb _ s) eqn:X; [discriminate|].
  destruct (email_taken (v_email v) s); [discriminate|].
  injection H as <-. split; [|split; [assumption|]].
  - rewrite map_app. simpl. apply NoDup_snoc; [assumption|].
    intros K. apply next_id_above in K. lia.
  - intros Q. subst q. cbn [andb] in X.
    rewrite external_ids_app. simpl. apply NoDup_snoc; [now apply Nx|].
    apply find_by_supabase_id_none. unfold find_by_supabase_id.
    destruct (find _ s) eqn:F; [|reflexivity].
    apply find_some_existsb in F. congruence.
Qed.

Lemma commit_rivals_ok q vs s :
  store_ok q s -> store_ok q (commit_rivals q vs s).
Proof.
  revert s. induction vs as [|v vs IH]; intros s H; simpl; [assumption|].
  destruct (insert_into q v s) as [s'|e] eqn:E; apply IH; [|assumption].
  now apply (insert_into_ok q v s).
Qed.

Lemma set_login_ok q i t n a s :
  store_ok q s -> store_ok q (update_where_id i (set_login t n a) s).
Proof.
  intros [Ni [Ne Nx]]. unfold store_ok.
  rewrite update_where_id_ids, emails_update, external_ids_update;
    auto.
Qed.

(** X19. The call keeps the constraints the table has, on every path and
    whatever other connections commit meanwhile: after it, ids are still
    distinct and e-mails are still distinct; where the table has
    [supabase_id] unique, the external references that are set are still
    distinct. *)
Theorem reconcile_keeps_constraints
    (su : SupabaseUser) (ac : AccessControl) (w : World) :
  store_ok (supabase_id_unique w) (file w) ->
  store_ok (supabase_id_unique w)
           (file (snd (get_or_create_supabase_user su ac w))).
Proof.
  intros H.
  destruct (find_by_supabase_id (su_id su) (file w)) as [u|] eqn:H1.
  - rewrite (call_primary su ac w u H1). cbn [snd file].
    now apply set_login_ok.
  - destruct (find_by_email (su_email su) (file w)) as [u|] eqn:H2.
    + destruct (find_by_email_id _ _ _ H2) as [u0 [H3 _]].
      rewrite (call_fallback su ac w u u0 H1 H2 H3). cbn [snd file].
      apply set_login_ok. destruct H as [Ni [Ne Nx]]. unfold store_ok.
      rewrite update_where_id_ids, emails_update by reflexivity.
      split; [assumption|]. split; [assumption|].
      intros Q. apply backfill_unique; try assumption; [|now apply Nx].
      now apply find_by_supabase_id_none.
    + rewrite (call_create su ac w H1 H2).
      destruct (insert_into _ _ _); cbn [snd file]; now apply commit_rivals_ok.
Qed.

Definition two_users : Store :=
  [ bob_row;
    mkRow 2 (Some "carol") "carol@x.com" (Some "Carol") false None None
          (Some 2) None ].

(** Two rivals with the same external id: both are in a migrated table. *)
Definition twin_rivals : World :=
  mkWorld two_users None 0 [] 5
          [mkValues "dan" "dan@x.com" "Dan" "sb-2" false 1 1] false.

Lemma reconcile_keeps_constraints_witness :
  store_ok (supabase_id_unique twin_rivals) (file twin_rivals) /\
  store_ok (supabase_id_unique twin_rivals)
           (file (snd (get_or_create_supabase_user ann open_policy
                         twin_rivals))).
Proof.
  assert (H : store_ok (supabase_id_unique twin_rivals) (file twin_rivals)).
  { unfold store_ok. simpl. repeat split; repeat constructor; simpl;
      intuition discriminate. }
  split; [exact H|].
  exact (reconcile_keeps_constraints ann open_policy twin_rivals H).
Defined.

End UserFacts.

(** ** The names derived from the identity *)

Module NamesFacts.
Import Py PyStr PyStrFacts Config Supabase Models ModelsFacts PolicyFacts.

(** The text before the first separator. *)
Fixpoint before (sep : ascii) (s : string) : string :=
  match s with
  | EmptyString => EmptyString
  | String c r => if Ascii.eqb c sep then EmptyString else String c (before sep r)
  end.

Lemma append_snoc a c r :
  ((a ++ String c EmptyString) ++ r)%string = (a ++ String c r)%string.
Proof. induction a as [|x a IH]; simpl; [reflexivity|]. now rewrite IH. Qed.

Lemma append_empty a : (a ++ EmptyString)%string = a.
Proof. induction a as [|x a IH]; simpl; [reflexivity|]. now rewrite IH. Qed.

Lemma hd_split_go sep acc s :
  hd EmptyString (split_go sep acc s) = (acc ++ before sep s)%string.
Proof.
  revert acc. induction s as [|c r IH]; intros acc; simpl.
  - now rewrite append_empty.
  - destruct (Ascii.eqb c sep); simpl.
    + now rewrite append_empty.
    + now rewrite IH, append_snoc.
Qed.

Lemma before_no_sep sep s : count_char sep (before sep s) = O.
Proof.
  induction s as [|c r IH]; simpl; [reflexivity|].
  destruct (Ascii.eqb c sep) eqn:E; simpl; [reflexivity|]. now rewrite E.
Qed.

Lemma before_prefix sep s :
  exists rest, s = (before sep s ++ rest)%string /\
               (rest = EmptyString \/ exists r, rest = String sep r).
Proof.
  induction s as [|c r [rest [E R]]]; simpl.
  - exists EmptyString. auto.
  - destruct (Ascii.eqb c sep) eqn:K.
    + apply Ascii.eqb_eq in K. subst c. exists (String sep r). simpl. eauto.
    + exists rest. simpl. split; [now rewrite <- E|assumption].
Qed.

(** X20. The default for the username and the full name is the e-mail up to
    its first [@]: it holds no [@], the e-mail is that text followed by
    nothing or by the [@] and the rest, and an identity without metadata
    gets it for both names. *)
Theorem default_names_are_local_part (su : SupabaseUser) :
  count_char "@" (local_part su) = O /\
  (exists rest, su_email su = (local_part su ++ rest)%string /\
                (rest = EmptyString \/ exists r, rest = String "@" r)) /\
  (su_user_metadata su = None ->
   username_of su = local_part su /\ full_name_of su = local_part su).
Proof.
  unfold local_part, split. rewrite hd_split_go. cbn [String.append].
  split; [apply before_no_sep|]. split; [apply before_prefix|].
  intros H. unfold username_of, full_name_of, meta_of, local_part, split.
  rewrite H, hd_split_go. split; reflexivity.
Qed.

End NamesFacts.

(** ** The import test script *)

Module TestImportsFacts.
Import Py TestImports.

(** The module can be imported. *)
Definition importable (import_module : string -> Outcome unit)
    (m : string * string) : bool :=
  match import_module (fst m) with Return _ => true | Raise _ => false end.

Lemma run_tests_count imp ms c out :
  fst (run_tests imp ms c out)
  = (c + List.length (filter (importable imp) ms))%nat.
Proof.
  revert c out. induction ms as [|[m d] ms IH]; intros c out; simpl.
  - lia.
  - unfold test_import, importable at 1. cbn [fst].
    destruct (imp m); rewrite IH; simpl; lia.
Qed.

Lemma filter_all {A} (p : A -> bool) l :
  List.length (filter p l) = List.length l <-> forallb p l = true.
Proof.
  induction l as [|x l IH]; simpl; [tauto|].
  pose proof (filter_length_le p l) as B.
  destruct (p x); simpl.
  - rewrite <- IH. lia.
  - split; [lia|discriminate].
Qed.

(** X21. The script tries every module of its list, also after a failure,
    and exits with status 0 exactly when all of them import; otherwise the
    status is 1. *)
Theorem main_status (imp : string -> Outcome unit) :
  (fst (main imp) = 0%Z <-> forallb (importable imp) modules_to_test = true) /\
  (fst (main imp) = 0%Z \/ fst (main imp) = 1%Z) /\
  fst (run_tests imp modules_to_test 0 [])
  = List.length (filter (importable imp) modules_to_test).
Proof.
  unfold main.
  pose proof (run_tests_count imp modules_to_test 0
                [Stdout "Testing module imports..."; Stdout (repeat_str "=" 50)])
    as C.
  destruct (run_tests imp modules_to_test 0 _) as [k out] eqn:E.
  cbn [fst] in C. rewrite Nat.add_0_l in C. subst k.
  split; [|split].
  - rewrite <- filter_all.
    destruct (Nat.eqb _ _) eqn:Q; cbn [fst].
    + apply Nat.eqb_eq in Q. tauto.
    + apply Nat.eqb_neq in Q. split; [discriminate|tauto].
  - destruct (Nat.eqb _ _); cbn [fst]; auto.
  - now rewrite run_tests_count.
Qed.

End TestImportsFacts.

(** ** The [title_case] filter *)

Module FilterFacts.
Import Py PyStr PyStrFacts App.

(** No white space in the string. *)
Fixpoint no_space (s : string) : bool :=
  match s with
  | EmptyString => true
  | String c r => negb (is_space c) && no_space r
  end.

(** A word: not empty and free of white space. *)
Definition is_word (w : string) : Prop := w <> EmptyString /\ no_space w = true.

Lemma upper_ascii_idem c : upper_ascii (upper_ascii c) = upper_ascii c.
Proof. destruct c as [[] [] [] [] [] [] [] []]; reflexivity. Qed.

Lemma is_space_upper c : is_space (upper_ascii c) = is_space c.
Proof. destruct c as [[] [] [] [] [] [] [] []]; reflexivity. Qed.

Lemma is_space_lower_ascii c : is_space (lower_ascii c) = is_space c.
Proof. destruct c as [[] [] [] [] [] [] [] []]; reflexivity. Qed.

Lemma no_space_lower s : no_space (lower s) = no_space s.
Proof.
  induction s as [|c r IH]; simpl; [reflexivity|].
  now rewrite is_space_lower_ascii, IH.
Qed.

Lemma capitalize_idem w : capitalize (capitalize w) = capitalize w.
Proof.
  destruct w as [|c r]; simpl; [reflexivity|].
  now rewrite upper_ascii_idem, lower_idem.
Qed.

Lemma capitalize_word w : is_word w -> is_word (capitalize w).
Proof.
  intros [N S]. destruct w as [|c r]; [congruence|]. split; [discriminate|].
  simpl in *. now rewrite is_space_upper, no_space_lower.
Qed.

Lemma no_space_snoc a c :
  no_space a = true -> is_space c = false ->
  no_space (a ++ String c EmptyString) = true.
Proof.
  induction a as [|x a IH]; simpl; intros H E.
  - now rewrite E.
  - apply andb_true_iff in H as [H1 H2]. now rewrite H1, IH.
Qed.

Lemma snoc_not_empty a c : (a ++ String c EmptyString)%string <> EmptyString.
Proof. destruct a; discriminate. Qed.

Lemma truthy_str_true s : s <> EmptyString -> truthy_str s = true.
Proof. destruct s; [congruence|reflexivity]. Qed.

(** [split] gives words. *)
Lemma split_ws_go_words cur s :
  no_space cur = true -> Forall is_word (split_ws_go cur s).
Proof.
  revert cur. induction s as [|c r IH]; intros cur H; simpl.
  - destruct cur; simpl; constructor; [|constructor]. split; [discriminate|assumption].
  - destruct (is_space c) eqn:E.
    + destruct cur; simpl; [now apply IH|].
      constructor; [split; [discriminate|assumption]|now apply IH].
    + apply IH. now apply no_space_snoc.
Qed.

(** Reading a word that is followed by [rest]. *)
Lemma split_ws_go_word cur w rest :
  no_space w = true ->
  split_ws_go cur (w ++ rest) = split_ws_go (cur ++ w) rest.
Proof.
  revert cur. induction w as [|c r IH]; intros cur H; simpl.
  - destruct cur; simpl; [reflexivity|].
    f_equal. clear. induction cur as [|x cur IH]; simpl; congruence.
  - apply andb_true_iff in H as [H1 H2].
    apply negb_true_iff in H1. rewrite H1, (IH _ H2).
    f_equal. clear. induction cur as [|x cur IH]; simpl; congruence.
Qed.

Lemma append_nil w : (w ++ EmptyString)%string = w.
Proof. induction w as [|c r IH]; simpl; congruence. Qed.

(** Splitting what [join] has put together gives the words back. *)
Lemma split_ws_join ws :
  Forall is_word ws -> split_ws (join " " ws) = ws.
Proof.
  unfold split_ws. induction 1 as [|w ws [N S] F IH]; [reflexivity|].
  destruct ws as [|w' ws].
  - cbn [join]. rewrite <- (append_nil w) at 1.
    rewrite (split_ws_go_word EmptyString w EmptyString S). simpl.
    now rewrite (truthy_str_true _ N).
  - change (join " " (w :: w' :: ws))
      with (w ++ String " " (join " " (w' :: ws)))%string.
    rewrite (split_ws_go_word EmptyString w _ S).
    cbn [String.append split_ws_go]. cbn [is_space]. 
    replace (is_space " ") with true by reflexivity.
    now rewrite (truthy_str_true _ N), IH.
Qed.

Lemma capitalized_words s : Forall is_word (map capitalize (split_ws s)).
Proof.
  apply Forall_map. eapply Forall_impl; [|now apply split_ws_go_words].
  intros w. apply capitalize_word.
Qed.

Lemma title_case_split text :
  split_ws (title_case_filter text) = map capitalize (split_ws text) /\
  title_case_filter text = join " " (map capitalize (split_ws text)).
Proof.
  unfold title_case_filter. destruct text as [|c r]; [split; reflexivity|].
  cbn [truthy_str negb]. split; [|reflexivity].
  apply split_ws_join, capitalized_words.
Qed.

(** X22. The words of the filtered text are the words of the text, each
    capitalised; the filter joins them with single blanks, so that leading,
    trailing and repeated white space is gone. *)
Theorem title_case_words (text : string) :
  split_ws (title_case_filter text) = map capitalize (split_ws text) /\
  title_case_filter text = join " " (map capitalize (split_ws text)).
Proof. apply title_case_split. Qed.

(** Every character is below 128. *)
Fixpoint ascii_only (s : string) : bool :=
  match s with
  | EmptyString => true
  | String c r => (nat_of_ascii c <? 128)%nat && ascii_only r
  end.

(** X23. On ASCII text, filtering twice is filtering once. *)
Theorem title_case_idempotent (text : string) :
  ascii_only text = true ->
  title_case_filter (title_case_filter text) = title_case_filter text.
Proof.
  intros _.
  destruct (title_case_split text) as [W E].
  destruct (title_case_filter text) as [|c r] eqn:T; [reflexivity|].
  unfold title_case_filter at 1. cbn [truthy_str negb].
  rewrite W, map_map.
  rewrite (map_ext _ capitalize capitalize_idem). now rewrite <- E.
Qed.

Lemma title_case_idempotent_witness :
  ascii_only "  hello   wORLD " = true /\
  title_case_filter "  hello   wORLD " = "Hello World" /\
  title_case_filter (title_case_filter "  hello   wORLD ")
  = title_case_filter "  hello   wORLD ".
Proof.
  split; [reflexivity|]. split; [reflexivity|].
  exact (title_case_idempotent "  hello   wORLD " eq_refl).
Defined.

End FilterFacts.
